(** * Credit-card spend pipeline: ingestion, enrichment, features, tiers, risk labels

    A shallow embedding of the notebook [framework.ipynb].  Tables
    (pandas DataFrames) are lists of records in row order, a missing cell
    (NaN / NaT) is [None], timestamps are integers (nanoseconds since
    1970-01-01, the resolution pandas uses), money amounts and scores are
    rationals, and an operation that raises is a computation in the
    [result] type. *)

From Stdlib Require Import List ZArith QArith Bool Lia Lqa Sorted Permutation.
Import ListNotations.
Local Open Scope Z_scope.

Set Implicit Arguments.

(* ================================================================== *)
(** * Part I. The embedding                                            *)
(* ================================================================== *)

(** ** Errors *)

Inductive error : Type :=
| ValueError
| KeyError.

Inductive result (A : Type) : Type :=
| Ok (a : A)
| Raise (e : error).
Arguments Ok {A} a.
Arguments Raise {A} e.

Definition bind {A B : Type} (c : result A) (k : A -> result B) : result B :=
  match c with
  | Ok a => k a
  | Raise e => Raise e
  end.

Notation "x <- c ;; k" := (bind c (fun x => k))
  (at level 61, c at next level, right associativity).

(** ** Calendar timestamps *)

(** Days between 1970-01-01 and the civil date [y]-[m]-[d] (proleptic
    Gregorian calendar). *)
Definition days_from_civil (y m d : Z) : Z :=
  let y' := if m <=? 2 then y - 1 else y in
  let era := y' / 400 in
  let yoe := y' - era * 400 in
  let mp := (m + 9) mod 12 in
  let doy := (153 * mp + 2) / 5 + d - 1 in
  let doe := yoe * 365 + yoe / 4 - yoe / 100 + doy in
  era * 146097 + doe - 719468.

Definition ns_per_day : Z := 86400 * 1000000000.

(** The timestamp a date string such as ["2024-05-01"] denotes when it is
    compared with a datetime column: midnight of that day. *)
Definition Timestamp (y m d : Z) : Z := days_from_civil y m d * ns_per_day.

(** Year and month of the day [days] days after 1970-01-01. *)
Definition civil_from_days (days : Z) : Z * Z :=
  let z := days + 719468 in
  let era := z / 146097 in
  let doe := z - era * 146097 in
  let yoe := (doe - doe / 1460 + doe / 36524 - doe / 146096) / 365 in
  let doy := doe - (365 * yoe + yoe / 4 - yoe / 100) in
  let mp := (5 * doy + 2) / 153 in
  let m := if mp <? 10 then mp + 3 else mp - 9 in
  let y := yoe + era * 400 + (if m <=? 2 then 1 else 0) in
  (y, m).

Definition month_of_day (days : Z) : Z :=
  let (y, m) := civil_from_days days in (y - 1970) * 12 + (m - 1).

(** [timestamp.to_period("M")], as the number of the month counted from
    January 1970. *)
Definition to_period_M (t : Z) : Z := month_of_day (t / ns_per_day).

(** ** Source tables *)

(** A row of [transaction_fact] / [wrld_stor_tran_fact]. *)
Record transaction : Type := mkTransaction {
  tx_current_account_nbr : Z;
  transaction_date : option Z;
  transaction_amt : Q
}.

(** A row of [account_dim]. *)
Record account : Type := mkAccount {
  current_account_nbr : Z;
  client_id : Z;
  open_date : option Z;
  card_activation_date : option Z;
  date_in_collection : option Z
}.

(** A row of [rams_batch_cur]. *)
Record rams_row : Type := mkRams {
  cu_account_nbr : Z;
  cu_processing_date : option Z;
  cu_crd_line : option Q;
  cu_bhv_scr : option Q;
  cu_crd_bureau_scr : option Q;
  ca_avg_utilz_lst_3_mnths : option Q;
  ca_nsf_count_lst_12_months : option Q;
  ca_max_dlq_lst_6_mnths : option Q
}.

(** A row of [fraud_claim_case]. *)
Record fraud_case : Type := mkFraudCase {
  fc_current_account_nbr : Z;
  reported_date : option Z
}.

(** ** Ingestion: chunked read, date filter, concatenation *)

Definition chunksize : nat := Z.to_nat 100000.

Fixpoint chunks_fuel (A : Type) (fuel n : nat) (l : list A) : list (list A) :=
  match fuel with
  | O => []
  | S fuel' =>
      match l with
      | [] => []
      | _ :: _ => firstn n l :: chunks_fuel fuel' n (skipn n l)
      end
  end.

(** [pd.read_csv(file, chunksize=n)]: the rows of the file in consecutive
    pieces of [n] rows (the last one may be shorter).  A file without
    rows yields one piece, which is empty: the reader returns an empty
    table when the first read finds nothing, and stops at every later
    one. *)
Definition read_csv_chunks (A : Type) (n : nat) (file : list A) : list (list A) :=
  match file with
  | [] => [[]]
  | _ :: _ => chunks_fuel (length file) n file
  end.

(** [col >= "yyyy-mm-dd"] and [col <= "yyyy-mm-dd"] on a datetime column;
    a comparison with NaT is False. *)
Definition date_ge (d : option Z) (bound : Z) : bool :=
  match d with
  | Some t => bound <=? t
  | None => false
  end.

Definition date_le (d : option Z) (bound : Z) : bool :=
  match d with
  | Some t => t <=? bound
  | None => false
  end.

Definition between (d : option Z) (lo hi : Z) : bool :=
  date_ge d lo && date_le d hi.

Definition load_start : Z := Timestamp 2024 5 1.
Definition load_end : Z := Timestamp 2025 3 31.

Definition mask (row : transaction) : bool :=
  between (transaction_date row) load_start load_end.

(** The list the loading loop builds: one filtered chunk per chunk of
    each file, in file order. *)
Definition transactions_list (files : list (list transaction))
  : list (list transaction) :=
  flat_map (fun file => map (filter mask) (read_csv_chunks chunksize file)) files.

(** [pd.concat(frames, ignore_index=True)]. *)
Definition pd_concat (A : Type) (frames : list (list A)) : list A := concat frames.

Definition load_transactions (files : list (list transaction)) : list transaction :=
  pd_concat (transactions_list files).

(** ** Account enrichment: joins *)

(** [left.merge(right, on=key, how="left")]: every left row, in left
    order, once per matching right row (in right order), or once with a
    missing right side when nothing matches. *)
Definition merge_left (L R : Type) (lkey : L -> Z) (rkey : R -> Z)
    (left : list L) (right : list R) : list (L * option R) :=
  flat_map
    (fun l =>
       match filter (fun r => rkey r =? lkey l) right with
       | [] => [(l, None)]
       | ms => map (fun r => (l, Some r)) ms
       end)
    left.

(** A transaction row after the account columns [client_id] and
    [open_date] were merged in. *)
Record transaction_row : Type := mkTransactionRow {
  tr_transaction : transaction;
  tr_client_id : option Z;
  tr_open_date : option Z
}.

Definition attach_account (p : transaction * option account) : transaction_row :=
  match p with
  | (t, Some a) => mkTransactionRow t (Some (client_id a)) (open_date a)
  | (t, None) => mkTransactionRow t None None
  end.

(** [transactions.merge(accounts[[key, "client_id", "open_date"]], on=key, how="left")]. *)
Definition merge_accounts (transactions : list transaction) (accounts : list account)
  : list transaction_row :=
  map attach_account
    (merge_left tx_current_account_nbr current_account_nbr transactions accounts).

(** ** Latest credit snapshot per account *)

Fixpoint insert_sorted (A : Type) (le : A -> A -> bool) (x : A) (l : list A) : list A :=
  match l with
  | [] => [x]
  | y :: l' => if le x y then x :: y :: l' else y :: insert_sorted le x l'
  end.

(** A stable sort: rows that compare equal keep their relative order.
    A multi-column [sort_values] is stable (pandas orders the rows by a
    lexicographic sort of the columns' codes); every stable sort computes
    the same list. *)
Fixpoint stable_sort (A : Type) (le : A -> A -> bool) (l : list A) : list A :=
  match l with
  | [] => []
  | x :: l' => insert_sorted le x (stable_sort le l')
  end.

(** Order of [cu_processing_date] under [ascending=False]: later dates
    first, NaT last ([na_position] keeps its default). *)
Definition date_desc_le (d1 d2 : option Z) : bool :=
  match d1, d2 with
  | Some a, Some b => b <=? a
  | Some _, None => true
  | None, Some _ => false
  | None, None => true
  end.

(** Order of [sort_values(["cu_account_nbr", "cu_processing_date"],
    ascending=[True, False])], for account numbers held as integers. *)
Definition rams_le (r1 r2 : rams_row) : bool :=
  (cu_account_nbr r1 <? cu_account_nbr r2)
  || ((cu_account_nbr r1 =? cu_account_nbr r2)
      && date_desc_le (cu_processing_date r1) (cu_processing_date r2)).

Definition sort_values_rams (rams : list rams_row) : list rams_row :=
  stable_sort rams_le rams.

Definition memZ (k : Z) (l : list Z) : bool := existsb (Z.eqb k) l.

Fixpoint drop_duplicates_seen (A : Type) (key : A -> Z) (seen : list Z) (l : list A)
  : list A :=
  match l with
  | [] => []
  | r :: l' =>
      if memZ (key r) seen then drop_duplicates_seen key seen l'
      else r :: drop_duplicates_seen key (key r :: seen) l'
  end.

(** [df.drop_duplicates(subset=key, keep="first")]. *)
Definition drop_duplicates (A : Type) (key : A -> Z) (l : list A) : list A :=
  drop_duplicates_seen key [] l.

Definition rams_latest (rams : list rams_row) : list rams_row :=
  drop_duplicates cu_account_nbr (sort_values_rams rams).

(** An account row with the columns of its latest snapshot, when it has one. *)
Definition account_row : Type := (account * option rams_row)%type.

(** [accounts.merge(rams_latest, on="current_account_nbr", how="left")],
    after the snapshot key was renamed to [current_account_nbr]. *)
Definition enrich_accounts (accounts : list account) (rams : list rams_row)
  : list account_row :=
  merge_left current_account_nbr cu_account_nbr accounts (rams_latest rams).

(** [d1] is no later than [d2]; a missing date is below every date. *)
Definition date_leq (d1 d2 : option Z) : Prop :=
  match d1, d2 with
  | None, _ => True
  | Some a, Some b => a <= b
  | Some _, None => False
  end.

(** ** Feature table *)

(** Insert one row into the running per-key sums, kept in key order. *)
Fixpoint add_group (k : Z) (v : Q) (groups : list (Z * Q)) : list (Z * Q) :=
  match groups with
  | [] => [(k, v)]
  | (k', s) :: groups' =>
      if k <? k' then (k, v) :: groups
      else if k =? k' then (k', (s + v)%Q) :: groups'
      else (k', s) :: add_group k v groups'
  end.

(** [rows.groupby(key)[value].sum()]: one entry per key that occurs in
    [rows], in key order, holding the sum of the key's values.  Amounts
    are rationals and are added exactly here, where the code adds 64-bit
    floats; the properties proved of the tables built with it concern
    their keys and the columns joined to them, not the values of the
    sums. *)
Definition groupby_sum (rows : list (Z * Q)) : list (Z * Q) :=
  fold_left (fun groups row => add_group (fst row) (snd row) groups) rows [].

(** [left.join(right, how="inner")] on the index. *)
Definition join_inner (L R : Type) (lkey : L -> Z) (rkey : R -> Z)
    (left : list L) (right : list R) : list (L * R) :=
  flat_map
    (fun l => map (fun r => (l, r)) (filter (fun r => rkey r =? lkey l) right))
    left.

Definition account_amount (row : transaction_row) : Z * Q :=
  (tx_current_account_nbr (tr_transaction row),
   transaction_amt (tr_transaction row)).

Definition msk (row : transaction_row) : bool :=
  between (transaction_date (tr_transaction row))
          (Timestamp 2024 5 1) (Timestamp 2024 9 30).

Definition msk_q4 (row : transaction_row) : bool :=
  between (transaction_date (tr_transaction row))
          (Timestamp 2024 10 1) (Timestamp 2024 12 31).

Definition may_sep_2024 (transactions : list transaction_row) : list (Z * Q) :=
  groupby_sum (map account_amount (filter msk transactions)).

Definition q4_2024 (transactions : list transaction_row) : list (Z * Q) :=
  groupby_sum (map account_amount (filter msk_q4 transactions)).

(** A column of the snapshot in the enriched account table: missing when
    the account has no snapshot. *)
Definition snapshot_column (column : rams_row -> option Q) (a : account_row)
  : option Q :=
  match snd a with
  | Some r => column r
  | None => None
  end.

(** [column.fillna(0)]. *)
Definition fillna0 (v : option Q) : Q :=
  match v with
  | Some q => q
  | None => 0%Q
  end.

Record feature_row : Type := mkFeatureRow {
  feature_account : Z;
  spend_MaySep_2024 : Q;
  spend_Q4_2024 : Q;
  feature_cu_crd_line : Q;
  feature_cu_crd_bureau_scr : Q
}.

Definition make_feature_row
    (p : ((Z * Q) * (Z * Q)) * option account_row) : feature_row :=
  let '((may_sep, q4), a) := p in
  mkFeatureRow (fst may_sep) (snd may_sep) (snd q4)
    (fillna0 (match a with Some a' => snapshot_column cu_crd_line a' | None => None end))
    (fillna0 (match a with
              | Some a' => snapshot_column cu_crd_bureau_scr a'
              | None => None
              end)).

(** The table [features_df]: accounts with a sum in both windows, joined
    to the credit line and bureau score of the enriched account table,
    missing values filled with zero. *)
Definition features_df (transactions : list transaction_row)
    (accounts : list account_row) : list feature_row :=
  map make_feature_row
    (merge_left
       (fun p : (Z * Q) * (Z * Q) => fst (fst p))
       (fun a : account_row => current_account_nbr (fst a))
       (join_inner (@fst Z Q) (@fst Z Q)
                   (may_sep_2024 transactions) (q4_2024 transactions))
       accounts).

(** ** Forecasts of the monthly series *)

Definition month_amount (row : transaction_row) : option (Z * Q) :=
  match transaction_date (tr_transaction row) with
  | Some t => Some (to_period_M t, transaction_amt (tr_transaction row))
  | None => None
  end.

Fixpoint dropna_keys (A B : Type) (key : A -> option B) (rows : list A) : list B :=
  match rows with
  | [] => []
  | r :: rows' =>
      match key r with
      | Some b => b :: dropna_keys key rows'
      | None => dropna_keys key rows'
      end
  end.

(** [transactions.groupby("month")["transaction_amt"].sum().sort_index()]:
    one total per calendar month that has a transaction, in month order. *)
Definition monthly_spend_by_month (transactions : list transaction_row) : list (Z * Q) :=
  groupby_sum (dropna_keys month_amount transactions).

Definition monthly_spend (transactions : list transaction_row) : list Q :=
  map snd (monthly_spend_by_month transactions).

Section Forecast.
(** The estimators of the time-series libraries are parameters: the
    fitted model, the seasonal-unit-root test statistic of a series
    that has samples left after differencing, the stepwise order
    search, the fit of a fixed-order model and the forecast. *)
Variable arima_model : Type.
Variable ocsb_differencing_term : list Q -> nat -> nat.
Variable stepwise_search : list Q -> nat -> nat -> arima_model.
Variable fit_arima : list Q -> nat * nat * nat -> arima_model.
Variable predict : arima_model -> nat -> list Q.

Definition is_constant (x : list Q) : bool :=
  match x with
  | [] => true
  | a :: x' => forallb (Qeq_bool a) x'
  end.

(** [diff(x, lag=m)]: the series [x[t+m] - x[t]]; it is empty when [x]
    has at most [m] values. *)
Definition diff_lag (m : nat) (x : list Q) : list Q :=
  map (fun p => (snd p - fst p)%Q) (combine x (skipn m x)).

(** [nsdiffs(x, m, test="ocsb")], as far as the notebook's recorded
    traceback shows it: a constant series needs no differencing; the
    test differences the series once at lag [m] and raises when no
    sample is left. *)
Definition nsdiffs (x : list Q) (m : nat) : result nat :=
  if is_constant x then Ok O
  else if (length (diff_lag m x) =? 0)%nat then Raise ValueError
  else Ok (ocsb_differencing_term x m).

(** [pm.auto_arima(y, seasonal=True, m=m, error_action="ignore")]: the
    seasonal differencing order is estimated before any model is fitted,
    outside the fits whose errors [error_action] covers. *)
Definition auto_arima (y : list Q) (m : nat) : result arima_model :=
  D <- nsdiffs y m ;;
  Ok (stepwise_search y m D).

(** The second forecasting cell: the seasonal search and its 9-month
    forecast, then the fixed-order ARIMA(1,1,1) on the resampled monthly
    series.  No statement of the cell catches an exception. *)
Definition seasonal_forecast_cell (monthly_spend resampled : list Q)
  : result (list Q * list Q) :=
  model <- auto_arima monthly_spend 12 ;;
  let forecast := predict model 9 in
  let model' := fit_arima resampled (1, 1, 1)%nat in
  Ok (forecast, predict model' 9).
End Forecast.

(** ** Spending tiers *)

Inductive tier : Type := Low | Medium | High.

(** A bin edge: a number or [float("inf")]. *)
Inductive edge : Type :=
| Finite (q : Q)
| PosInf.

Definition Qltb (x y : Q) : bool := negb (Qle_bool y x).

Definition edge_ltb (e1 e2 : edge) : bool :=
  match e1, e2 with
  | Finite a, Finite b => Qltb a b
  | Finite _, PosInf => true
  | PosInf, _ => false
  end.

(** [e < x] for an edge and a finite value. *)
Definition edge_below (e : edge) (x : Q) : bool :=
  match e with
  | Finite q => Qltb q x
  | PosInf => false
  end.

(** [bins.searchsorted(x, side="left")] on increasing [bins]: the number
    of edges strictly below [x]. *)
Fixpoint searchsorted_left (bins : list edge) (x : Q) : nat :=
  match bins with
  | [] => O
  | e :: bins' => if edge_below e x then S (searchsorted_left bins' x) else O
  end.

Fixpoint strictly_increasing (bins : list edge) : bool :=
  match bins with
  | [] => true
  | e :: bins' =>
      match bins' with
      | [] => true
      | e' :: _ => edge_ltb e e' && strictly_increasing bins'
      end
  end.

(** The label of one value under [pd.cut] with [right=True] and
    [include_lowest=False]: bin [i] is the interval (bins[i], bins[i+1]];
    a value at or below the first edge, or above the last one, is in no
    bin and gets a missing label. *)
Definition cut_value (L : Type) (bins : list edge) (labels : list L) (x : Q)
  : option L :=
  let ids := searchsorted_left bins x in
  if (ids =? 0)%nat || (ids =? length bins)%nat then None
  else nth_error labels (ids - 1).

(** [pd.cut(xs, bins=bins, labels=labels)]; it raises when the edges do
    not increase or the number of labels is not one less than the number
    of edges. *)
Definition pd_cut (L : Type) (xs : list Q) (bins : list edge) (labels : list L)
  : result (list (option L)) :=
  if negb (strictly_increasing bins) then Raise ValueError
  else if negb (length labels =? length bins - 1)%nat then Raise ValueError
  else Ok (map (cut_value bins labels) xs).

Definition bins : list edge := [Finite 0; Finite 1000; Finite 10000; PosInf].
Definition labels : list tier := [Low; Medium; High].

(** The column [predictions_df["spending_tier"]] for the column of
    predicted amounts. *)
Definition spending_tier (predicted_Q4_2025 : list Q) : result (list (option tier)) :=
  pd_cut predicted_Q4_2025 bins labels.

Definition tier_eqb (a b : tier) : bool :=
  match a, b with
  | Low, Low | Medium, Medium | High, High => true
  | _, _ => false
  end.

Definition count_tier (t : tier) (column : list (option tier)) : nat :=
  length (filter (fun o => match o with
                           | Some t' => tier_eqb t t'
                           | None => false
                           end) column).

(** [column.value_counts()] on the categorical tier column: one count per
    category, missing values not counted, largest count first. *)
Definition value_counts (column : list (option tier)) : list (tier * nat) :=
  stable_sort (fun a b => (snd b <=? snd a)%nat)
              (map (fun t => (t, count_tier t column)) labels).

Definition tier_counts (predicted_Q4_2025 : list Q) : result (list (tier * nat)) :=
  column <- spending_tier predicted_Q4_2025 ;;
  Ok (value_counts column).

(** ** Risk labels *)

Record risk_feature_row : Type := mkRiskFeatures {
  risk_account : Z;
  risk_cu_bhv_scr : option Q;
  risk_cu_crd_bureau_scr : option Q;
  risk_ca_avg_utilz_lst_3_mnths : option Q;
  risk_ca_nsf_count_lst_12_months : option Q;
  risk_ca_max_dlq_lst_6_mnths : option Q
}.

(** [accounts[[key, ...]].copy()] indexed by the account number. *)
Definition risk_features (accounts : list account_row) : list risk_feature_row :=
  map (fun a =>
         mkRiskFeatures (current_account_nbr (fst a))
           (snapshot_column cu_bhv_scr a)
           (snapshot_column cu_crd_bureau_scr a)
           (snapshot_column ca_avg_utilz_lst_3_mnths a)
           (snapshot_column ca_nsf_count_lst_12_months a)
           (snapshot_column ca_max_dlq_lst_6_mnths a))
      accounts.

(** [series.loc[keys] = v] for a list of labels: every entry whose index
    label is among [keys] is set to [v]; a label that is not in the index
    raises [KeyError]. *)
Definition loc_assign (keys : list Z) (v : Z) (series : list (Z * Z))
  : result (list (Z * Z)) :=
  if forallb (fun k => memZ k (map fst series)) keys
  then Ok (map (fun p => if memZ (fst p) keys then (fst p, v) else p) series)
  else Raise KeyError.

(** [set(fraud_cases["current_account_nbr"])], listed. *)
Definition fraud_accounts (fraud_cases : list fraud_case) : list Z :=
  nodup Z.eq_dec (map fc_current_account_nbr fraud_cases).

Definition notna (A : Type) (v : option A) : bool :=
  match v with
  | Some _ => true
  | None => false
  end.

Definition collections_accounts (accounts : list account_row) : list Z :=
  map (fun a : account_row => current_account_nbr (fst a))
      (filter (fun a : account_row => notna (date_in_collection (fst a))) accounts).

Definition risk_labels (accounts : list account_row) (fraud_cases : list fraud_case)
  : result (list (Z * Z)) :=
  let zeros := map (fun r => (risk_account r, 0)) (risk_features accounts) in
  marked <- loc_assign (fraud_accounts fraud_cases) 1 zeros ;;
  loc_assign (collections_accounts accounts) 1 marked.

(** [risk_features.join(risk_labels, how="inner")]: feature rows paired
    with the label entries of the same account. *)
Definition risk_data (accounts : list account_row) (fraud_cases : list fraud_case)
  : result (list (risk_feature_row * (Z * Z))) :=
  risk_label <- risk_labels accounts fraud_cases ;;
  Ok (join_inner risk_account (@fst Z Z) (risk_features accounts) risk_label).

Definition risk_label_of (row : risk_feature_row * (Z * Z)) : Z := snd (snd row).

(** ** Notions used to state properties *)

(** The account numbers that a table read from CSV holds as 64-bit
    integers, and so compares and sorts as numbers; when a column has a
    number outside this range pandas may keep the column as text, which
    it orders character by character. *)
Definition int64_range (z : Z) : Prop := - 2 ^ 63 <= z < 2 ^ 63.

(** The position of a tier in the order of the categories. *)
Definition tier_rank (t : tier) : nat :=
  match t with
  | Low => 0
  | Medium => 1
  | High => 2
  end.

(** The order of [rams_le] as a proposition. *)
Definition rams_before (r1 r2 : rams_row) : Prop :=
  cu_account_nbr r1 < cu_account_nbr r2 \/
  (cu_account_nbr r1 = cu_account_nbr r2 /\
   date_leq (cu_processing_date r2) (cu_processing_date r1)).

(** ** Sample tables *)

Definition sample_accounts : list account :=
  [ mkAccount 101 7 (Some (Timestamp 2020 1 15)) None None;
    mkAccount 102 8 None None (Some (Timestamp 2024 11 2));
    mkAccount 103 9 (Some (Timestamp 2023 6 30)) None None ].

Definition sample_transactions : list transaction :=
  [ mkTransaction 101 (Some (Timestamp 2024 5 1)) (2550 # 100);
    mkTransaction 999 (Some (Timestamp 2024 6 3)) (10 # 1);
    mkTransaction 101 (Some (Timestamp 2024 10 9)) (40 # 1);
    mkTransaction 102 (Some (Timestamp 2025 3 31)) (5 # 1) ].

Definition sample_rams : list rams_row :=
  [ mkRams 102 (Some (Timestamp 2025 1 31)) (Some 2000%Q) None (Some 640%Q) None None None;
    mkRams 101 (Some (Timestamp 2025 2 28)) (Some 5000%Q) None (Some 700%Q) None None None;
    mkRams 101 None (Some 1%Q) None None None None None;
    mkRams 101 (Some (Timestamp 2025 3 24)) (Some 7500%Q) None (Some 710%Q) None None None;
    mkRams 101 (Some (Timestamp 2025 3 24)) (Some 9000%Q) None (Some 720%Q) None None None ].

Definition sample_files : list (list transaction) :=
  [ sample_transactions;
    [ mkTransaction 102 (Some (Timestamp 2024 7 4)) (120 # 1);
      mkTransaction 102 (Some (Timestamp 2024 4 30)) (77 # 1);
      mkTransaction 102 (Some (Timestamp 2024 12 24)) (300 # 1);
      mkTransaction 103 None (1 # 1);
      mkTransaction 103 (Some (Timestamp 2024 11 15)) (60 # 1) ] ].

(** The transaction and account tables of the first cell for the sample
    sources. *)
Definition sample_merged : list transaction_row :=
  merge_accounts (load_transactions sample_files) sample_accounts.

Definition sample_enriched : list account_row :=
  enrich_accounts sample_accounts sample_rams.

Definition sample_fraud_cases : list fraud_case :=
  [ mkFraudCase 101 (Some (Timestamp 2024 8 8));
    mkFraudCase 101 None ].

(** Monthly totals of the eleven months from May 2024 to March 2025. *)
Definition sample_monthly_spend : list Q :=
  [ 14100000; 14350000; 14200000; 14600000; 14450000; 14900000;
    15800000; 16900000; 14000000; 13700000; 14880000 ]%Q.

Definition sample_risk_data : list (risk_feature_row * (Z * Z)) :=
  [ (mkRiskFeatures 101 None (Some 710%Q) None None None, (101, 1));
    (mkRiskFeatures 102 None (Some 640%Q) None None None, (102, 1));
    (mkRiskFeatures 103 None None None None None, (103, 0)) ].

(* ================================================================== *)
(** * Part II. Properties                                              *)
(* ================================================================== *)

Lemma chunks_fuel_concat (A : Type) (n : nat) :
  (0 < n)%nat ->
  forall (fuel : nat) (l : list A),
    (length l <= fuel)%nat -> concat (chunks_fuel fuel n l) = l.
Proof.
  intros Hn fuel; induction fuel as [|fuel IH]; intros l Hl.
  - destruct l; simpl in *; [reflexivity | lia].
  - destruct l as [|a l']; [reflexivity|].
    cbn [chunks_fuel concat].
    rewrite IH.
    + apply firstn_skipn.
    + rewrite length_skipn. cbn [length] in *. lia.
Qed.

Lemma chunksize_pos : (0 < chunksize)%nat.
Proof.
  unfold chunksize. change 0%nat with (Z.to_nat 0).
  apply Z2Nat.inj_lt; lia.
Qed.

Lemma read_csv_chunks_concat (A : Type) (file : list A) :
  concat (read_csv_chunks chunksize file) = file.
Proof.
  unfold read_csv_chunks. destruct file as [|a file]; [reflexivity|].
  apply chunks_fuel_concat; [apply chunksize_pos | apply Nat.le_refl].
Qed.

(** ** Ingestion *)

Example epoch_day : days_from_civil 1970 1 1 = 0.
Proof. reflexivity. Qed.

Example timestamp_2024_05_01 : Timestamp 2024 5 1 = 1714521600 * 1000000000.
Proof. reflexivity. Qed.

Example read_csv_chunks_of_two :
  read_csv_chunks 2 [1; 2; 3; 4; 5] = [[1; 2]; [3; 4]; [5]].
Proof. reflexivity. Qed.

Example read_csv_chunks_exact_multiple :
  read_csv_chunks 2 [1; 2; 3; 4] = [[1; 2]; [3; 4]].
Proof. reflexivity. Qed.

Example read_csv_chunks_empty_file : read_csv_chunks 2 (@nil Z) = [[]].
Proof. reflexivity. Qed.

Example load_sample_files :
  map tx_current_account_nbr (load_transactions sample_files)
    = [101; 999; 101; 102; 102; 102; 103].
Proof. vm_compute. reflexivity. Qed.

Lemma concat_map_filter (A : Type) (f : A -> bool) (ls : list (list A)) :
  concat (map (filter f) ls) = filter f (concat ls).
Proof.
  induction ls as [|l ls IH]; simpl; [reflexivity|].
  now rewrite filter_app, IH.
Qed.

Lemma load_transactions_filter (files : list (list transaction)) :
  load_transactions files = filter mask (concat files).
Proof.
  unfold load_transactions, pd_concat, transactions_list.
  induction files as [|file files IH]; simpl; [reflexivity|].
  rewrite concat_app, IH, filter_app, concat_map_filter, read_csv_chunks_concat.
  reflexivity.
Qed.

Lemma between_spec (d : option Z) (lo hi : Z) :
  between d lo hi = true <-> exists t, d = Some t /\ lo <= t <= hi.
Proof.
  unfold between, date_ge, date_le. destruct d as [t|]; simpl.
  - rewrite andb_true_iff, !Z.leb_le. split.
    + intros H. exists t. split; [reflexivity | lia].
    + intros (t' & Ht & H). injection Ht as <-. lia.
  - split; [discriminate | intros (t & Ht & _); discriminate].
Qed.

(** C5: a row is in the loaded transaction table exactly when it is a row
    of one of the source files whose timestamp lies in the closed range
    from 2024-05-01 to 2025-03-31; rows outside the range (and rows
    without a timestamp) are discarded. *)
Theorem loaded_transactions_within_range :
  forall (files : list (list transaction)) (row : transaction),
    In row (load_transactions files) <->
    (exists file, In file files /\ In row file) /\
    (exists t, transaction_date row = Some t /\
               Timestamp 2024 5 1 <= t <= Timestamp 2025 3 31).
Proof.
  intros files row.
  rewrite load_transactions_filter, filter_In, in_concat.
  unfold mask. rewrite between_spec. unfold load_start, load_end.
  split; intros [(file & H1 & H2) H]; (split; [exists file; tauto | exact H]).
Qed.

Lemma length_concat_sum (A : Type) (ls : list (list A)) :
  length (concat ls) = list_sum (map (@length A) ls).
Proof.
  induction ls as [|l ls IH]; simpl; [reflexivity|].
  now rewrite length_app, IH.
Qed.

Lemma count_concat_sum (A : Type) (p : A -> bool) (ls : list (list A)) :
  length (filter p (concat ls))
    = list_sum (map (fun l => length (filter p l)) ls).
Proof.
  induction ls as [|l ls IH]; simpl; [reflexivity|].
  now rewrite filter_app, length_app, IH.
Qed.

(** C6: the unified table is the concatenation, in order, of the filtered
    per-source tables: its row count is the sum of their row counts (the
    in-range rows of every source file added up), and for any property of
    rows the number of rows having it is the sum of the inputs' numbers,
    so no row is dropped, duplicated or merged with another. *)
Theorem concat_preserves_rows :
  forall files : list (list transaction),
    load_transactions files = concat (map (filter mask) files) /\
    length (load_transactions files)
      = list_sum (map (@length transaction) (transactions_list files)) /\
    length (load_transactions files)
      = list_sum (map (fun file => length (filter mask file)) files) /\
    forall p : transaction -> bool,
      length (filter p (load_transactions files))
        = list_sum (map (fun chunk => length (filter p chunk))
                        (transactions_list files)).
Proof.
  intros files. repeat split.
  - now rewrite load_transactions_filter, concat_map_filter.
  - apply length_concat_sum.
  - rewrite load_transactions_filter. apply count_concat_sum.
  - intros p. apply count_concat_sum.
Qed.

(** ** Account enrichment *)

Lemma filter_none (A : Type) (f : A -> bool) (l : list A) :
  (forall x, In x l -> f x = false) -> filter f l = [].
Proof.
  induction l as [|a l IH]; simpl; intros H; [reflexivity|].
  rewrite (H a) by (now left). apply IH. intros x Hx. apply H. now right.
Qed.

Lemma filter_unique_key (R : Type) (rkey : R -> Z) (right : list R) (k : Z) :
  NoDup (map rkey right) ->
  filter (fun r => rkey r =? k) right
    = match find (fun r => rkey r =? k) right with
      | Some r => [r]
      | None => []
      end.
Proof.
  induction right as [|r right IH]; simpl; intros Hnd; [reflexivity|].
  inversion Hnd as [|? ? Hnotin Hnd']; subst.
  destruct (Z.eqb_spec (rkey r) k) as [Hk|Hk].
  - f_equal. apply filter_none.
    intros x Hx. apply Z.eqb_neq. intros E. apply Hnotin.
    rewrite Hk, <- E. now apply in_map.
  - now apply IH.
Qed.

Lemma merge_left_unique (L R : Type) (lkey : L -> Z) (rkey : R -> Z)
    (left : list L) (right : list R) :
  NoDup (map rkey right) ->
  merge_left lkey rkey left right
    = map (fun l => (l, find (fun r => rkey r =? lkey l) right)) left.
Proof.
  intros Hnd. unfold merge_left.
  induction left as [|l left IH]; [reflexivity|].
  cbn [flat_map]. rewrite IH, filter_unique_key by assumption.
  change (map ?f (l :: left)) with (f l :: map f left). cbv beta.
  now destruct (find (fun r => rkey r =? lkey l) right).
Qed.

Lemma attach_account_transaction (p : transaction * option account) :
  tr_transaction (attach_account p) = fst p.
Proof. now destruct p as [t [a|]]. Qed.

(** C7: when the account identifier is unique in the account table, the
    left join returns the transaction rows themselves, each once and in
    order, with their own fields untouched; the joined account columns
    are those of the matching account, and are missing when no account
    matches. *)
Theorem left_join_preserves_transactions :
  forall (transactions : list transaction) (accounts : list account),
    NoDup (map current_account_nbr accounts) ->
    map tr_transaction (merge_accounts transactions accounts) = transactions /\
    forall row : transaction_row,
      In row (merge_accounts transactions accounts) ->
      ((forall a, In a accounts ->
                  current_account_nbr a
                    <> tx_current_account_nbr (tr_transaction row)) ->
       tr_client_id row = None /\ tr_open_date row = None) /\
      (forall a, In a accounts ->
                 current_account_nbr a
                   = tx_current_account_nbr (tr_transaction row) ->
                 tr_client_id row = Some (client_id a) /\
                 tr_open_date row = open_date a).
Proof.
  intros transactions accounts Hnd. unfold merge_accounts.
  rewrite merge_left_unique by assumption. rewrite !map_map. split.
  - rewrite <- (map_id transactions) at 2. apply map_ext.
    intros t. now rewrite attach_account_transaction.
  - intros row Hrow. apply in_map_iff in Hrow as (t & <- & Ht).
    rewrite attach_account_transaction. cbn [fst].
    destruct (find _ accounts) as [a0|] eqn:Hfind; cbn [attach_account].
    + apply find_some in Hfind as [Hin0 Hk0]. apply Z.eqb_eq in Hk0.
      cbn [tr_client_id tr_open_date]. split.
      * intros Hno. exfalso. now apply (Hno a0).
      * intros a Hin Hk.
        assert (a = a0) as ->; [|now split].
        clear - Hnd Hin Hin0 Hk Hk0. rewrite <- Hk0 in Hk. clear Hk0.
        induction accounts as [|b l IH]; [contradiction|].
        inversion Hnd as [|? ? Hnotin Hnd']; subst.
        destruct Hin as [->|Hin], Hin0 as [->|Hin0]; try reflexivity.
        -- exfalso. apply Hnotin. rewrite Hk. now apply in_map.
        -- exfalso. apply Hnotin. rewrite <- Hk. now apply in_map.
        -- now apply IH.
    + cbn [tr_client_id tr_open_date]. split; [now split|].
      intros a Hin Hk. exfalso.
      pose proof (find_none _ _ Hfind a Hin) as Hf. cbn in Hf.
      apply Z.eqb_neq in Hf. now apply Hf.
Qed.

Lemma left_join_preserves_transactions_witness :
  NoDup (map current_account_nbr sample_accounts) /\
  map tr_transaction (merge_accounts sample_transactions sample_accounts)
    = sample_transactions.
Proof.
  assert (Hnd : NoDup (map current_account_nbr sample_accounts)).
  { cbn. repeat constructor; cbn; intuition discriminate. }
  split; [exact Hnd|].
  exact (proj1 (@left_join_preserves_transactions
                  sample_transactions sample_accounts Hnd)).
Defined.

(** ** Stable sorting *)

Section StableSort.
Variable A : Type.
Variable le : A -> A -> bool.

Lemma insert_sorted_split (x : A) (l : list A) :
  exists t1 t2,
    l = t1 ++ t2 /\ insert_sorted le x l = t1 ++ x :: t2 /\
    forall y, In y t1 -> le x y = false.
Proof.
  induction l as [|y l IH]; simpl.
  - exists [], []. repeat split. intros y [].
  - destruct (le x y) eqn:Hxy.
    + exists [], (y :: l). repeat split. intros z [].
    + destruct IH as (t1 & t2 & -> & -> & Ht1).
      exists (y :: t1), t2. repeat split.
      intros z [<-|Hz]; [assumption | now apply Ht1].
Qed.

Lemma stable_sort_In (l : list A) (x : A) :
  In x (stable_sort le l) <-> In x l.
Proof.
  induction l as [|a l IH]; simpl; [tauto|].
  destruct (insert_sorted_split a (stable_sort le l))
    as (t1 & t2 & Hl & -> & _).
  rewrite <- IH, Hl, !in_app_iff. simpl. tauto.
Qed.

(** Stability: the row found at a position of the sorted list sits at a
    position of the input such that every row before it there is
    either still before it, or does not order at or before it. *)
Lemma stable_sort_stable (l : list A) :
  forall (s1 : list A) (r : A) (s2 : list A),
    stable_sort le l = s1 ++ r :: s2 ->
    exists l1 l2,
      l = l1 ++ r :: l2 /\
      (forall x, In x l1 -> In x s1 \/ le x r = false) /\
      (forall x, In x l2 -> In x s1 \/ In x s2).
Proof.
  induction l as [|a l IH]; intros s1 r s2 Hs.
  - destruct s1; discriminate.
  - cbn [stable_sort] in Hs.
    destruct (insert_sorted_split a (stable_sort le l))
      as (t1 & t2 & Hl & Hins & Ht1).
    rewrite Hins in Hs. clear Hins.
    assert (Hsame : t1 = s1 -> a = r -> t2 = s2 ->
              exists l1 l2, a :: l = l1 ++ r :: l2 /\
                (forall x, In x l1 -> In x s1 \/ le x r = false) /\
                (forall x, In x l2 -> In x s1 \/ In x s2)).
    { intros <- <- <-. exists [], l. repeat split; [intros x []|].
      intros x Hx. apply stable_sort_In in Hx. rewrite Hl in Hx.
      now apply in_app_iff in Hx. }
    apply app_eq_app in Hs as (m & [[H1 H2]|[H1 H2]]).
    + destruct m as [|r' m'].
      * rewrite app_nil_r in H1. cbn in H2. injection H2 as <- <-.
        now apply Hsame.
      * cbn in H2. injection H2 as <- ->. subst t1.
        destruct (IH s1 r (m' ++ t2)) as (l1 & l2 & -> & Hl1 & Hl2).
        { now rewrite Hl, <- app_assoc. }
        exists (a :: l1), l2. repeat split.
        -- intros x [<-|Hx]; [|now apply Hl1].
           right. apply Ht1. apply in_app_iff. right. now left.
        -- intros x Hx. destruct (Hl2 x Hx) as [H|H]; [now left|].
           right. apply in_app_iff in H. apply in_app_iff.
           destruct H; [now left | right; now right].
    + destruct m as [|a' m'].
      * rewrite app_nil_r in H1. cbn in H2. injection H2 as <- <-.
        now apply Hsame.
      * cbn in H2. injection H2 as <- ->. subst s1.
        destruct (IH (t1 ++ m') r s2) as (l1 & l2 & -> & Hl1 & Hl2).
        { now rewrite Hl, <- app_assoc. }
        exists (a :: l1), l2. repeat split.
        -- intros x [<-|Hx].
           ++ left. apply in_app_iff. right. now left.
           ++ destruct (Hl1 x Hx) as [H|H]; [left | now right].
              apply in_app_iff in H. apply in_app_iff.
              destruct H; [now left | right; now right].
        -- intros x Hx. destruct (Hl2 x Hx) as [H|H]; [left | now right].
           apply in_app_iff in H. apply in_app_iff.
           destruct H; [now left | right; now right].
Qed.

Hypothesis le_total : forall x y, le x y = false -> le y x = true.
Hypothesis le_trans :
  forall x y z, le x y = true -> le y z = true -> le x z = true.

Lemma insert_sorted_sorted (x : A) (l : list A) :
  StronglySorted (fun a b => le a b = true) l ->
  StronglySorted (fun a b => le a b = true) (insert_sorted le x l).
Proof.
  induction 1 as [|y l Hss IH Hall]; simpl.
  - constructor; constructor.
  - destruct (le x y) eqn:Hxy.
    + constructor; [now constructor|].
      constructor; [assumption|].
      eapply Forall_impl; [|exact Hall]. intros z Hz. cbv beta in *.
      now apply le_trans with y.
    + constructor; [assumption|].
      apply Forall_forall. intros z Hz.
      destruct (insert_sorted_split x l) as (t1 & t2 & Hl & Hins & _).
      rewrite Hins in Hz. rewrite Forall_forall in Hall.
      apply in_app_iff in Hz as [Hz|[<-|Hz]].
      * apply Hall. rewrite Hl. apply in_app_iff. now left.
      * now apply le_total.
      * apply Hall. rewrite Hl. apply in_app_iff. now right.
Qed.

Lemma stable_sort_sorted (l : list A) :
  StronglySorted (fun a b => le a b = true) (stable_sort le l).
Proof.
  induction l as [|a l IH]; simpl; [constructor|].
  now apply insert_sorted_sorted.
Qed.

Lemma stable_sort_after (l s1 : list A) (r : A) (s2 : list A) :
  stable_sort le l = s1 ++ r :: s2 ->
  forall x, In x s2 -> le r x = true.
Proof.
  intros Hs. pose proof (stable_sort_sorted l) as Hss. rewrite Hs in Hss.
  clear Hs. induction s1 as [|b s1 IH]; cbn in Hss.
  - apply StronglySorted_inv in Hss as [_ Hall].
    now rewrite Forall_forall in Hall.
  - apply StronglySorted_inv in Hss as [Hss _]. now apply IH.
Qed.
End StableSort.

(** ** Dropping duplicates *)

Lemma memZ_In (k : Z) (l : list Z) : memZ k l = true <-> In k l.
Proof.
  unfold memZ. rewrite existsb_exists. split.
  - intros (x & Hx & E). apply Z.eqb_eq in E. now subst.
  - intros H. exists k. split; [assumption | apply Z.eqb_refl].
Qed.

Lemma memZ_not_In (k : Z) (l : list Z) : memZ k l = false <-> ~ In k l.
Proof.
  rewrite <- memZ_In. destruct (memZ k l); split; congruence.
Qed.

Section DropDuplicates.
Variable A : Type.
Variable key : A -> Z.

(** A retained row is the first row of the table with its key. *)
Lemma drop_duplicates_seen_first (l : list A) :
  forall (seen : list Z) (r : A),
    In r (drop_duplicates_seen key seen l) ->
    ~ In (key r) seen /\
    exists s1 s2,
      l = s1 ++ r :: s2 /\ forall x, In x s1 -> key x <> key r.
Proof.
  induction l as [|a l IH]; intros seen r Hr; [contradiction|].
  cbn [drop_duplicates_seen] in Hr.
  destruct (memZ (key a) seen) eqn:Hmem.
  - destruct (IH _ _ Hr) as (Hns & s1 & s2 & -> & Hs1).
    split; [assumption|]. exists (a :: s1), s2. split; [reflexivity|].
    intros x [<-|Hx]; [|now apply Hs1].
    apply memZ_In in Hmem. congruence.
  - apply memZ_not_In in Hmem. destruct Hr as [<-|Hr].
    + split; [assumption|]. exists [], l. split; [reflexivity|].
      intros x [].
    + destruct (IH _ _ Hr) as (Hns & s1 & s2 & -> & Hs1).
      split; [intros H; apply Hns; now right|].
      exists (a :: s1), s2. split; [reflexivity|].
      intros x [<-|Hx]; [|now apply Hs1].
      intros E. apply Hns. now left.
Qed.

Lemma drop_duplicates_seen_keys (l : list A) :
  forall (seen : list Z) (k : Z),
    In k (map key (drop_duplicates_seen key seen l)) <->
    In k (map key l) /\ ~ In k seen.
Proof.
  induction l as [|a l IH]; intros seen k; cbn [drop_duplicates_seen map].
  - simpl. tauto.
  - destruct (memZ (key a) seen) eqn:Hmem.
    + apply memZ_In in Hmem. rewrite IH. simpl.
      split; [tauto|]. intros [[<-|H] Hn]; tauto.
    + apply memZ_not_In in Hmem. cbn [map]. simpl. rewrite IH. simpl.
      destruct (Z.eq_dec (key a) k) as [E|E]; [subst; tauto | tauto].
Qed.

Lemma drop_duplicates_seen_NoDup (l : list A) :
  forall seen : list Z, NoDup (map key (drop_duplicates_seen key seen l)).
Proof.
  induction l as [|a l IH]; intros seen; cbn [drop_duplicates_seen map].
  - constructor.
  - destruct (memZ (key a) seen); [apply IH|].
    cbn [map]. constructor; [|apply IH].
    rewrite drop_duplicates_seen_keys. intros [_ H]. apply H. now left.
Qed.
End DropDuplicates.

(** ** Latest snapshot per account *)

Lemma date_desc_le_spec (d1 d2 : option Z) :
  date_desc_le d1 d2 = true <-> date_leq d2 d1.
Proof.
  destruct d1 as [a|], d2 as [b|]; simpl;
    rewrite ?Z.leb_le; split; auto; try discriminate; contradiction.
Qed.

Lemma date_leq_total (d1 d2 : option Z) : ~ date_leq d1 d2 -> date_leq d2 d1.
Proof. destruct d1 as [a|], d2 as [b|]; simpl; intros; auto; lia. Qed.

Lemma rams_le_total (x y : rams_row) : rams_le x y = false -> rams_le y x = true.
Proof.
  unfold rams_le.
  destruct (cu_processing_date x) as [a|], (cu_processing_date y) as [b|];
    simpl; rewrite ?orb_false_iff, ?andb_false_iff, ?orb_true_iff,
             ?andb_true_iff, ?Z.ltb_lt, ?Z.ltb_ge, ?Z.eqb_eq, ?Z.eqb_neq,
             ?Z.leb_le, ?Z.leb_gt; intros; try lia;
    intuition (try discriminate; try lia).
Qed.

Lemma rams_le_trans (x y z : rams_row) :
  rams_le x y = true -> rams_le y z = true -> rams_le x z = true.
Proof.
  unfold rams_le.
  destruct (cu_processing_date x) as [a|], (cu_processing_date y) as [b|],
    (cu_processing_date z) as [c|];
    simpl; rewrite ?orb_true_iff, ?andb_true_iff, ?Z.ltb_lt, ?Z.eqb_eq,
             ?Z.leb_le; intros; try lia;
    intuition (try discriminate; try lia).
Qed.

Lemma rams_le_same_account (x y : rams_row) :
  cu_account_nbr x = cu_account_nbr y ->
  rams_le x y = date_desc_le (cu_processing_date x) (cu_processing_date y).
Proof.
  intros E. unfold rams_le. rewrite E, Z.ltb_irrefl, Z.eqb_refl. reflexivity.
Qed.

(** C1: after deduplication of the snapshot table every account
    identifier of the table appears exactly once; the retained row of an
    account is a row of the original table, no original row of the
    account has a later processing date, and the original rows of the
    account that precede it in source order all have a strictly earlier
    processing date (a missing date counts as earlier than every date):
    among rows of equal latest date the first in source order is kept. *)
Theorem rams_latest_keeps_first_maximal :
  forall rams : list rams_row,
    NoDup (map cu_account_nbr (rams_latest rams)) /\
    (forall a : Z,
        In a (map cu_account_nbr (rams_latest rams)) <->
        In a (map cu_account_nbr rams)) /\
    (forall a : Z,
        In a (map cu_account_nbr rams) ->
        count_occ Z.eq_dec (map cu_account_nbr (rams_latest rams)) a = 1%nat) /\
    (forall r : rams_row,
        In r (rams_latest rams) ->
        (forall x, In x rams -> cu_account_nbr x = cu_account_nbr r ->
                   date_leq (cu_processing_date x) (cu_processing_date r)) /\
        exists l1 l2,
          rams = l1 ++ r :: l2 /\
          (forall x, In x l1 -> cu_account_nbr x = cu_account_nbr r ->
                     ~ date_leq (cu_processing_date r) (cu_processing_date x)) /\
          (forall x, In x l2 -> cu_account_nbr x = cu_account_nbr r ->
                     date_leq (cu_processing_date x) (cu_processing_date r))).
Proof.
  intros rams. unfold rams_latest, drop_duplicates, sort_values_rams.
  assert (Hkeys : forall a : Z,
            In a (map cu_account_nbr
                    (drop_duplicates_seen cu_account_nbr []
                       (stable_sort rams_le rams))) <->
            In a (map cu_account_nbr rams)).
  { intros a. rewrite drop_duplicates_seen_keys, !in_map_iff. split.
    - intros [(x & <- & Hx) _]. exists x. split; [reflexivity|].
      now apply stable_sort_In in Hx.
    - intros (x & <- & Hx). split; [|intros []].
      exists x. split; [reflexivity|]. now apply stable_sort_In. }
  split; [apply drop_duplicates_seen_NoDup|]. split; [exact Hkeys|]. split.
  - intros a Ha. apply NoDup_count_occ'.
    + apply drop_duplicates_seen_NoDup.
    + now apply Hkeys.
  - intros r Hr.
    apply drop_duplicates_seen_first in Hr as (_ & s1 & s2 & Hs & Hs1).
    destruct (@stable_sort_stable _ _ _ _ _ _ Hs) as (l1 & l2 & -> & Hl1 & Hl2).
    assert (Hbefore : forall x, In x l1 ->
              cu_account_nbr x = cu_account_nbr r ->
              ~ date_leq (cu_processing_date r) (cu_processing_date x)).
    { intros x Hx E. destruct (Hl1 x Hx) as [H|H].
      - exfalso. now apply (Hs1 x H).
      - rewrite rams_le_same_account in H by assumption.
        rewrite <- date_desc_le_spec. congruence. }
    assert (Hafter : forall x, In x l2 ->
              cu_account_nbr x = cu_account_nbr r ->
              date_leq (cu_processing_date x) (cu_processing_date r)).
    { intros x Hx E. destruct (Hl2 x Hx) as [H|H].
      - exfalso. now apply (Hs1 x H).
      - pose proof (@stable_sort_after _ _ rams_le_total rams_le_trans _ _ _ _ Hs x H)
          as Hle.
        rewrite rams_le_same_account in Hle by congruence.
        now apply date_desc_le_spec. }
    split.
    + intros x Hx E. apply in_app_iff in Hx as [Hx|[<-|Hx]].
      * apply date_leq_total. now apply Hbefore.
      * destruct (cu_processing_date r); simpl; [lia | exact I].
      * now apply Hafter.
    + exists l1, l2. repeat split; assumption.
Qed.

(** ** Spending tiers *)

Lemma Qltb_lt (x y : Q) : Qltb x y = true <-> (x < y)%Q.
Proof.
  unfold Qltb. rewrite negb_true_iff. split.
  - intros H. apply Qnot_le_lt. intros Hle.
    apply Qle_bool_iff in Hle. congruence.
  - intros H. destruct (Qle_bool y x) eqn:E; [|reflexivity].
    apply Qle_bool_iff in E. exfalso. now apply (Qlt_not_le x y).
Qed.

Lemma Qltb_ge (x y : Q) : Qltb x y = false <-> (y <= x)%Q.
Proof.
  unfold Qltb. rewrite negb_false_iff. apply Qle_bool_iff.
Qed.

Example spending_tier_scenario :
  spending_tier [500; 5000; 15000]%Q = Ok [Some Low; Some Medium; Some High].
Proof. reflexivity. Qed.

Example tier_counts_example :
  tier_counts [500; 0; 5000; 15000; -3; 250; 1000; 10000]%Q
    = Ok [(Low, 3%nat); (Medium, 2%nat); (High, 1%nat)].
Proof. reflexivity. Qed.

Lemma spending_tier_total (predicted : list Q) :
  spending_tier predicted = Ok (map (cut_value bins labels) predicted).
Proof. reflexivity. Qed.

Lemma cut_value_nonpositive (x : Q) :
  (x <= 0)%Q -> cut_value bins labels x = None.
Proof.
  intros Hx. unfold cut_value, bins. cbn [searchsorted_left edge_below].
  now rewrite (proj2 (Qltb_ge 0 x) Hx).
Qed.

Lemma count_tier_skip_missing (t : tier) (c1 c2 : list (option tier)) :
  count_tier t (c1 ++ None :: c2) = count_tier t (c1 ++ c2).
Proof.
  unfold count_tier. now rewrite !filter_app.
Qed.

(** C10: a prediction that is zero or negative gets no tier: its entry of
    the tier column is missing while the entries of the other rows are
    what they are without it, and the per-tier counts are the counts of
    the table without that row. *)
Theorem nonpositive_prediction_gets_no_tier :
  forall (before : list Q) (x : Q) (after : list Q),
    (x <= 0)%Q ->
    (exists c1 c2,
        spending_tier before = Ok c1 /\
        spending_tier after = Ok c2 /\
        spending_tier (before ++ x :: after) = Ok (c1 ++ None :: c2)) /\
    tier_counts (before ++ x :: after) = tier_counts (before ++ after).
Proof.
  intros before x after Hx.
  assert (Hcol : map (cut_value bins labels) (before ++ x :: after)
                 = map (cut_value bins labels) before
                     ++ None :: map (cut_value bins labels) after).
  { rewrite map_app. cbn [map]. now rewrite cut_value_nonpositive. }
  split.
  - exists (map (cut_value bins labels) before),
           (map (cut_value bins labels) after).
    rewrite !spending_tier_total, Hcol. now repeat split.
  - unfold tier_counts. rewrite !spending_tier_total, Hcol.
    cbn [bind]. f_equal. unfold value_counts. f_equal.
    apply map_ext. intros t.
    now rewrite count_tier_skip_missing, <- map_app.
Qed.

Lemma nonpositive_prediction_gets_no_tier_witness :
  (0 <= 0)%Q /\
  tier_counts ([500; 5000] ++ 0 :: [15000])%Q = tier_counts ([500; 5000] ++ [15000])%Q.
Proof.
  assert (H0 : (0 <= 0)%Q) by apply Qle_refl.
  split; [exact H0|].
  exact (proj2 (@nonpositive_prediction_gets_no_tier [500; 5000]%Q 0%Q [15000]%Q H0)).
Defined.

(** C2, the claim as stated fails: zero is at most the first threshold
    1000, yet a predicted value of zero is not assigned the tier Low; it
    is assigned no tier. *)
Lemma tier_of_zero_is_not_low :
  (0 <= 1000)%Q /\
  spending_tier [0%Q] = Ok [None] /\
  spending_tier [0%Q] <> Ok [Some Low].
Proof.
  split; [discriminate|]. split; [reflexivity | discriminate].
Qed.

(** C2, amended: with bin edges 0 < T1 < T2 < inf, every predicted value
    above zero gets exactly one tier: Low up to and including T1, Medium
    above T1 up to and including T2, High above T2; with thresholds 1000
    and 10000 the values 500, 5000 and 15000 get Low, Medium and High. *)
Theorem tier_assignment_above_zero :
  forall T1 T2 x : Q,
    (0 < T1)%Q -> (T1 < T2)%Q -> (0 < x)%Q ->
    ((x <= T1)%Q ->
     pd_cut [x] [Finite 0; Finite T1; Finite T2; PosInf] labels = Ok [Some Low]) /\
    ((T1 < x)%Q -> (x <= T2)%Q ->
     pd_cut [x] [Finite 0; Finite T1; Finite T2; PosInf] labels = Ok [Some Medium]) /\
    ((T2 < x)%Q ->
     pd_cut [x] [Finite 0; Finite T1; Finite T2; PosInf] labels = Ok [Some High]) /\
    spending_tier [500; 5000; 15000]%Q = Ok [Some Low; Some Medium; Some High].
Proof.
  intros T1 T2 x HT1 HT2 Hx.
  assert (Hcut : pd_cut [x] [Finite 0; Finite T1; Finite T2; PosInf] labels
                 = Ok [cut_value [Finite 0; Finite T1; Finite T2; PosInf] labels x]).
  { unfold pd_cut. cbn [strictly_increasing edge_ltb].
    now rewrite (proj2 (Qltb_lt 0 T1) HT1), (proj2 (Qltb_lt T1 T2) HT2). }
  rewrite Hcut. unfold cut_value. cbn [searchsorted_left edge_below].
  rewrite (proj2 (Qltb_lt 0 x) Hx).
  repeat split.
  - intros H. now rewrite (proj2 (Qltb_ge T1 x) H).
  - intros H1 H2.
    now rewrite (proj2 (Qltb_lt T1 x) H1), (proj2 (Qltb_ge T2 x) H2).
  - intros H2.
    assert (H1 : (T1 < x)%Q) by (now apply Qlt_trans with T2).
    now rewrite (proj2 (Qltb_lt T1 x) H1), (proj2 (Qltb_lt T2 x) H2).
Qed.

Lemma tier_assignment_above_zero_witness :
  (0 < 1000)%Q /\ (1000 < 10000)%Q /\ (0 < 5000)%Q /\
  pd_cut [5000%Q] bins labels = Ok [Some Medium].
Proof.
  assert (H1 : (0 < 1000)%Q) by reflexivity.
  assert (H2 : (1000 < 10000)%Q) by reflexivity.
  assert (H3 : (0 < 5000)%Q) by reflexivity.
  split; [exact H1|]. split; [exact H2|]. split; [exact H3|].
  apply (proj1 (proj2 (@tier_assignment_above_zero 1000 10000 5000 H1 H2 H3)));
    [reflexivity | discriminate].
Defined.

(** ** Feature table *)

Example sample_rams_latest :
  map (fun r => (cu_account_nbr r, cu_crd_line r)) (rams_latest sample_rams)
    = [(101, Some 7500%Q); (102, Some 2000%Q)].
Proof. reflexivity. Qed.

Example sample_features :
  features_df sample_merged sample_enriched
    = [ mkFeatureRow 101 (2550 # 100) (40 # 1) 7500 710;
        mkFeatureRow 102 (120 # 1) (300 # 1) 2000 640 ].
Proof. vm_compute. reflexivity. Qed.

Lemma add_group_keys (k : Z) (v : Q) (groups : list (Z * Q)) (k' : Z) :
  In k' (map fst (add_group k v groups)) <-> k' = k \/ In k' (map fst groups).
Proof.
  induction groups as [|[k0 s0] groups IH]; cbn [add_group].
  - simpl. intuition.
  - destruct (Z.ltb_spec k k0); [simpl; intuition|].
    destruct (Z.eqb_spec k k0) as [->|Hne]; cbn [map fst In].
    + intuition.
    + rewrite IH. intuition.
Qed.

Lemma fold_add_group_keys (rows : list (Z * Q)) :
  forall (groups : list (Z * Q)) (k : Z),
    In k (map fst (fold_left
                     (fun groups row => add_group (fst row) (snd row) groups)
                     rows groups)) <->
    In k (map fst rows) \/ In k (map fst groups).
Proof.
  induction rows as [|row rows IH]; intros groups k; cbn [fold_left map].
  - simpl. tauto.
  - rewrite IH, add_group_keys. simpl. intuition.
Qed.

Lemma groupby_sum_keys (rows : list (Z * Q)) (k : Z) :
  In k (map fst (groupby_sum rows)) <-> In k (map fst rows).
Proof.
  unfold groupby_sum. rewrite fold_add_group_keys. simpl. tauto.
Qed.

Lemma window_sum_keys (window : transaction_row -> bool)
    (transactions : list transaction_row) (k : Z) :
  In k (map fst (groupby_sum (map account_amount (filter window transactions)))) <->
  exists row, In row transactions /\
              tx_current_account_nbr (tr_transaction row) = k /\
              window row = true.
Proof.
  rewrite groupby_sum_keys, map_map, in_map_iff. cbn [account_amount fst].
  split.
  - intros (row & Hk & Hrow). apply filter_In in Hrow as [Hin Hw].
    now exists row.
  - intros (row & Hin & Hk & Hw). exists row. split; [assumption|].
    now apply filter_In.
Qed.

Lemma join_inner_In (L R : Type) (lkey : L -> Z) (rkey : R -> Z)
    (left : list L) (right : list R) (l : L) (r : R) :
  In (l, r) (join_inner lkey rkey left right) <->
  In l left /\ In r right /\ rkey r = lkey l.
Proof.
  unfold join_inner. rewrite in_flat_map. split.
  - intros (l0 & Hl0 & Hp). apply in_map_iff in Hp as (r0 & E & Hr0).
    injection E as -> ->. apply filter_In in Hr0 as [Hr0 Hk].
    apply Z.eqb_eq in Hk. now repeat split.
  - intros (Hl & Hr & Hk). exists l. split; [assumption|].
    apply in_map. apply filter_In. split; [assumption|].
    now apply Z.eqb_eq.
Qed.

Lemma merge_left_left_rows (L R : Type) (lkey : L -> Z) (rkey : R -> Z)
    (left : list L) (right : list R) (l : L) :
  In l (map fst (merge_left lkey rkey left right)) <-> In l left.
Proof.
  unfold merge_left. rewrite in_map_iff. split.
  - intros ([l0 o] & <- & Hin). apply in_flat_map in Hin as (l1 & Hl1 & Hin).
    destruct (filter _ right) as [|r ms].
    + destruct Hin as [E|[]]. now injection E as <- _.
    + apply in_map_iff in Hin as (r0 & E & _). now injection E as <- _.
  - intros Hl.
    destruct (filter (fun r => rkey r =? lkey l) right) as [|r ms] eqn:Hf.
    + exists (l, None). split; [reflexivity|]. apply in_flat_map.
      exists l. split; [assumption|]. rewrite Hf. now left.
    + exists (l, Some r). split; [reflexivity|]. apply in_flat_map.
      exists l. split; [assumption|]. rewrite Hf. now left.
Qed.

Lemma make_feature_row_account
    (p : ((Z * Q) * (Z * Q)) * option account_row) :
  feature_account (make_feature_row p) = fst (fst (fst p)).
Proof. now destruct p as [[may_sep q4] a]. Qed.

(** The accounts of the feature table are those with a transaction in the
    feature window and a transaction in the label window. *)
Lemma features_df_accounts (transactions : list transaction_row)
    (accounts : list account_row) (a : Z) :
  In a (map feature_account (features_df transactions accounts)) <->
  (exists row, In row transactions /\
               tx_current_account_nbr (tr_transaction row) = a /\
               msk row = true) /\
  (exists row, In row transactions /\
               tx_current_account_nbr (tr_transaction row) = a /\
               msk_q4 row = true).
Proof.
  unfold features_df. rewrite map_map.
  rewrite <- (window_sum_keys msk), <- (window_sum_keys msk_q4).
  fold (may_sep_2024 transactions). fold (q4_2024 transactions).
  rewrite in_map_iff. split.
  - intros (x & Ha & Hx). rewrite make_feature_row_account in Ha.
    assert (Hl : In (fst x) (join_inner (@fst Z Q) (@fst Z Q)
                               (may_sep_2024 transactions)
                               (q4_2024 transactions))).
    { apply (merge_left_left_rows
               (fun p : (Z * Q) * (Z * Q) => fst (fst p))
               (fun a : account_row => current_account_nbr (fst a))
               _ accounts).
      now apply in_map. }
    destruct (fst x) as [l r] eqn:Hfx. cbn [fst] in Ha.
    apply join_inner_In in Hl as (Hl & Hr & Hk). subst a. split.
    + now apply in_map.
    + rewrite <- Hk. now apply in_map.
  - intros [Hm Hq].
    apply in_map_iff in Hm as (l & Hl & Hlin).
    apply in_map_iff in Hq as (r & Hr & Hrin).
    assert (Hj : In (l, r) (join_inner (@fst Z Q) (@fst Z Q)
                              (may_sep_2024 transactions)
                              (q4_2024 transactions))).
    { apply join_inner_In. repeat split; try assumption. congruence. }
    apply (merge_left_left_rows
             (fun p : (Z * Q) * (Z * Q) => fst (fst p))
             (fun a : account_row => current_account_nbr (fst a))
             _ accounts) in Hj.
    apply in_map_iff in Hj as (x & Hx & Hxin).
    exists x. split; [|assumption].
    now rewrite make_feature_row_account, Hx.
Qed.

Lemma merge_left_right_rows (L R : Type) (lkey : L -> Z) (rkey : R -> Z)
    (left : list L) (right : list R) (l : L) (r : R) :
  In (l, Some r) (merge_left lkey rkey left right) ->
  In r right /\ rkey r = lkey l.
Proof.
  unfold merge_left. intros Hin.
  apply in_flat_map in Hin as (l0 & _ & Hin).
  destruct (filter (fun r0 => rkey r0 =? lkey l0) right) as [|r1 ms] eqn:Hf.
  - destruct Hin as [E|[]]. discriminate.
  - apply in_map_iff in Hin as (r0 & E & Hr0). injection E as -> ->.
    rewrite <- Hf in Hr0. apply filter_In in Hr0 as [Hr0 Hk].
    apply Z.eqb_eq in Hk. now split.
Qed.

(** X18: zero filling: a feature row whose account is not in the account
    table, or has no snapshot there, has credit line and bureau score 0. *)
Lemma features_df_fills_zero (transactions : list transaction_row)
    (accounts : list account_row) (f : feature_row) :
  In f (features_df transactions accounts) ->
  (forall acc, In acc accounts ->
               current_account_nbr (fst acc) = feature_account f ->
               snd acc = None) ->
  feature_cu_crd_line f = 0%Q /\ feature_cu_crd_bureau_scr f = 0%Q.
Proof.
  unfold features_df. intros Hf Hnone.
  apply in_map_iff in Hf as ([[may_sep q4] [acc|]] & <- & Hx);
    cbn [make_feature_row feature_cu_crd_line feature_cu_crd_bureau_scr
         feature_account] in *; [|now split].
  apply merge_left_right_rows in Hx as [Hacc Hk]. cbn [fst] in Hk.
  unfold snapshot_column. now rewrite (Hnone acc Hacc Hk).
Qed.

(** C4, the claim as stated fails: account 103 is in the account table,
    its only loaded transaction is of November 2024, outside the feature
    window, and the feature table has no row for it. *)
Lemma inactive_account_has_no_feature_row :
  In 103 (map (fun a : account_row => current_account_nbr (fst a)) sample_enriched) /\
  (forall row, In row sample_merged ->
               tx_current_account_nbr (tr_transaction row) = 103 ->
               msk row = false) /\
  ~ (exists f, In f (features_df sample_merged sample_enriched) /\
               feature_account f = 103).
Proof.
  split; [vm_compute; tauto|]. split.
  - intros row Hrow E. vm_compute in Hrow.
    repeat (destruct Hrow as [<-|Hrow];
            [first [discriminate E | reflexivity]|]).
    contradiction.
  - intros (f & Hf & E). rewrite sample_features in Hf.
    destruct Hf as [<-|[<-|[]]]; discriminate E.
Qed.

(** C4, amended: an account without a transaction in the feature window
    (May to September 2024) has no row in the feature table; the feature
    builder is a total function, so no error is raised for it. *)
Theorem no_feature_row_without_window_transactions :
  forall (transactions : list transaction_row) (accounts : list account_row) (a : Z),
    (forall row, In row transactions ->
                 tx_current_account_nbr (tr_transaction row) = a ->
                 msk row = false) ->
    ~ In a (map feature_account (features_df transactions accounts)).
Proof.
  intros transactions accounts a Hnone Hin.
  apply features_df_accounts in Hin as [(row & Hrow & Ha & Hm) _].
  rewrite (Hnone row Hrow Ha) in Hm. discriminate.
Qed.

Lemma no_feature_row_without_window_transactions_witness :
  (forall row, In row sample_merged ->
               tx_current_account_nbr (tr_transaction row) = 103 ->
               msk row = false) /\
  ~ In 103 (map feature_account (features_df sample_merged sample_enriched)).
Proof.
  assert (H : forall row, In row sample_merged ->
                tx_current_account_nbr (tr_transaction row) = 103 ->
                msk row = false).
  { intros row Hrow E. vm_compute in Hrow.
    repeat (destruct Hrow as [<-|Hrow];
            [first [discriminate E | reflexivity]|]).
    contradiction. }
  split; [exact H|].
  exact (@no_feature_row_without_window_transactions
           sample_merged sample_enriched 103 H).
Defined.

(** ** Risk labels *)

Example sample_risk_labels :
  risk_labels sample_enriched sample_fraud_cases = Ok [(101, 1); (102, 1); (103, 0)].
Proof. reflexivity. Qed.

Example risk_labels_unknown_fraud_account :
  risk_labels sample_enriched (mkFraudCase 555 None :: sample_fraud_cases)
    = Raise KeyError.
Proof. reflexivity. Qed.

Lemma loc_assign_Ok (keys : list Z) (v : Z) (series series' : list (Z * Z)) :
  loc_assign keys v series = Ok series' ->
  (forall k, In k keys -> In k (map fst series)) /\
  series' = map (fun p => if memZ (fst p) keys then (fst p, v) else p) series.
Proof.
  unfold loc_assign.
  destruct (forallb _ keys) eqn:Hall; [|discriminate].
  intros E. injection E as <-. split; [|reflexivity].
  intros k Hk. rewrite forallb_forall in Hall.
  apply memZ_In. now apply Hall.
Qed.

Lemma loc_assign_complete (keys : list Z) (v : Z) (series : list (Z * Z)) :
  (forall k, In k keys -> In k (map fst series)) ->
  loc_assign keys v series
    = Ok (map (fun p => if memZ (fst p) keys then (fst p, v) else p) series).
Proof.
  intros H. unfold loc_assign.
  rewrite (proj2 (forallb_forall _ keys)); [reflexivity|].
  intros k Hk. apply memZ_In. now apply H.
Qed.

Lemma loc_assign_index (keys : list Z) (v : Z) (series : list (Z * Z)) :
  map fst (map (fun p => if memZ (fst p) keys then (fst p, v) else p) series)
    = map fst series.
Proof.
  rewrite map_map. apply map_ext. intros p. now destruct (memZ (fst p) keys).
Qed.

Lemma collections_accounts_in_index (accounts : list account_row) (k : Z) :
  In k (collections_accounts accounts) ->
  In k (map risk_account (risk_features accounts)).
Proof.
  unfold collections_accounts, risk_features. rewrite map_map. cbn [risk_account].
  rewrite !in_map_iff. intros (a & <- & Ha). apply filter_In in Ha as [Ha _].
  now exists a.
Qed.

(** The labels are constructed exactly when every account of the
    fraud-case table is in the account table; otherwise the assignment
    raises [KeyError]. *)
Lemma risk_data_completes (accounts : list account_row) (fraud_cases : list fraud_case) :
  (forall a, In a (map fc_current_account_nbr fraud_cases) ->
             In a (map (fun r : account_row => current_account_nbr (fst r)) accounts)) <->
  exists data, risk_data accounts fraud_cases = Ok data.
Proof.
  unfold risk_data, risk_labels. split.
  - intros H. rewrite loc_assign_complete.
    + cbn [bind]. rewrite loc_assign_complete; [cbn [bind]; eauto|].
      intros k Hk. rewrite loc_assign_index, map_map. cbn [fst].
      now apply collections_accounts_in_index.
    + intros k Hk. apply nodup_In in Hk. rewrite map_map. cbn [fst].
      unfold risk_features. rewrite map_map. cbn [risk_account]. now apply H.
  - intros (data & Hd) a Ha.
    destruct (loc_assign (fraud_accounts fraud_cases) 1 _) as [marked|e] eqn:E1;
      [|discriminate].
    apply loc_assign_Ok in E1 as [Hkeys _].
    specialize (Hkeys a). rewrite map_map in Hkeys. cbn [fst] in Hkeys.
    unfold risk_features in Hkeys. rewrite map_map in Hkeys.
    apply Hkeys. now apply nodup_In.
Qed.

(** Whenever the labels are constructed, an account of the fraud-case
    table has a row in the labelled table and each of its rows has
    label 1. *)
Lemma risk_label_one_when_constructed :
  forall (accounts : list account_row) (fraud_cases : list fraud_case)
         (data : list (risk_feature_row * (Z * Z))) (a : Z),
    risk_data accounts fraud_cases = Ok data ->
    In a (map fc_current_account_nbr fraud_cases) ->
    (exists row, In row data /\ risk_account (fst row) = a) /\
    (forall row, In row data -> risk_account (fst row) = a ->
                 risk_label_of row = 1).
Proof.
  intros accounts fraud_cases data a Hdata Ha.
  unfold risk_data, risk_labels in Hdata.
  destruct (loc_assign (fraud_accounts fraud_cases) 1 _) as [marked|e] eqn:E1;
    [|discriminate].
  cbn [bind] in Hdata.
  destruct (loc_assign (collections_accounts accounts) 1 marked)
    as [risk_label|e] eqn:E2; [|discriminate].
  cbn [bind] in Hdata. injection Hdata as <-.
  apply loc_assign_Ok in E1 as [Hkeys ->].
  apply loc_assign_Ok in E2 as [_ ->].
  assert (Hfraud : memZ a (fraud_accounts fraud_cases) = true).
  { apply memZ_In. now apply nodup_In. }
  assert (Hlabel : forall p,
            In p (map (fun p => if memZ (fst p) (collections_accounts accounts)
                                then (fst p, 1) else p)
                    (map (fun p => if memZ (fst p) (fraud_accounts fraud_cases)
                                   then (fst p, 1) else p)
                       (map (fun r => (risk_account r, 0))
                            (risk_features accounts)))) ->
            fst p = a -> snd p = 1).
  { intros p Hp E. rewrite !map_map in Hp. cbn [fst] in Hp.
    apply in_map_iff in Hp as (r & <- & _).
    destruct (memZ (risk_account r) (fraud_accounts fraud_cases)) eqn:Hm.
    - cbn [fst]. now destruct (memZ _ (collections_accounts accounts)).
    - cbn [fst] in *.
      destruct (memZ _ (collections_accounts accounts)); cbn [fst snd] in *;
        [reflexivity | congruence]. }
  split.
  - assert (Hidx : In a (map risk_account (risk_features accounts))).
    { specialize (Hkeys a). rewrite map_map in Hkeys. cbn [fst] in Hkeys.
      apply Hkeys. apply memZ_In, Hfraud. }
    apply in_map_iff in Hidx as (r & Hr & Hrin).
    set (g1 := fun p : Z * Z => if memZ (fst p) (fraud_accounts fraud_cases)
                                then (fst p, 1) else p) in *.
    set (g2 := fun p : Z * Z => if memZ (fst p) (collections_accounts accounts)
                                then (fst p, 1) else p) in *.
    assert (Hfst : fst (g2 (g1 (risk_account r, 0))) = risk_account r).
    { unfold g1, g2. cbn [fst].
      destruct (memZ (risk_account r) (fraud_accounts fraud_cases)); cbn [fst];
        now destruct (memZ (risk_account r) (collections_accounts accounts)). }
    exists (r, g2 (g1 (risk_account r, 0))). split; [|exact Hr].
    apply join_inner_In. repeat split; [assumption| |exact Hfst].
    apply in_map, in_map.
    apply (in_map (fun r => (risk_account r, 0))). assumption.
  - intros [r p] Hrow E. cbn [fst] in E. unfold risk_label_of. cbn [snd].
    apply join_inner_In in Hrow as (_ & Hp & Hk).
    apply Hlabel; [assumption | congruence].
Qed.

(** C3, the claim as stated fails: account 101 is in the fraud-case table
    and in the account table, but the fraud-case table also names account
    555, which the account table does not have; the label assignment
    raises [KeyError] and no label 1 is constructed for account 101. *)
Lemma known_fraud_account_unlabelled_beside_unknown_one :
  In 101 (map fc_current_account_nbr (mkFraudCase 555 None :: sample_fraud_cases)) /\
  In 101 (map risk_account (risk_features sample_enriched)) /\
  risk_data sample_enriched (mkFraudCase 555 None :: sample_fraud_cases)
    = Raise KeyError /\
  ~ (exists data,
        risk_data sample_enriched (mkFraudCase 555 None :: sample_fraud_cases)
          = Ok data /\
        exists row, In row data /\ risk_account (fst row) = 101 /\
                    risk_label_of row = 1).
Proof.
  split; [right; now left|]. split; [now left|]. split; [reflexivity|].
  intros (data & Hdata & _). discriminate Hdata.
Qed.

(** C3, amended: when every account of the fraud-case table is in the
    account table, the risk labels are constructed, and every account of
    the fraud-case table has a row in the labelled risk table and each of
    its rows has risk label 1, whatever the values of its behavior score,
    bureau score, utilization, NSF count and delinquency are. *)
Theorem fraud_accounts_labelled_one_when_all_known :
  forall (accounts : list account_row) (fraud_cases : list fraud_case),
    (forall b, In b (map fc_current_account_nbr fraud_cases) ->
               In b (map (fun r : account_row => current_account_nbr (fst r))
                         accounts)) ->
    exists data,
      risk_data accounts fraud_cases = Ok data /\
      forall a, In a (map fc_current_account_nbr fraud_cases) ->
                (exists row, In row data /\ risk_account (fst row) = a) /\
                (forall row, In row data -> risk_account (fst row) = a ->
                             risk_label_of row = 1).
Proof.
  intros accounts fraud_cases Hknown.
  destruct (proj1 (risk_data_completes accounts fraud_cases) Hknown)
    as [data Hdata].
  exists data. split; [exact Hdata|].
  intros a Ha. eapply risk_label_one_when_constructed; eassumption.
Qed.

Lemma fraud_accounts_labelled_one_when_all_known_witness :
  (forall b, In b (map fc_current_account_nbr sample_fraud_cases) ->
             In b (map (fun r : account_row => current_account_nbr (fst r))
                       sample_enriched)) /\
  exists data,
    risk_data sample_enriched sample_fraud_cases = Ok data /\
    forall a, In a (map fc_current_account_nbr sample_fraud_cases) ->
              (exists row, In row data /\ risk_account (fst row) = a) /\
              (forall row, In row data -> risk_account (fst row) = a ->
                           risk_label_of row = 1).
Proof.
  assert (H : forall b, In b (map fc_current_account_nbr sample_fraud_cases) ->
                In b (map (fun r : account_row => current_account_nbr (fst r))
                          sample_enriched)).
  { intros b Hb. vm_compute in Hb. vm_compute. intuition. }
  split; [exact H|].
  exact (@fraud_accounts_labelled_one_when_all_known
           sample_enriched sample_fraud_cases H).
Defined.

(** ** Forecasts *)

Lemma diff_lag_length (m : nat) (x : list Q) :
  length (diff_lag m x) = (length x - m)%nat.
Proof.
  unfold diff_lag. rewrite length_map, length_combine, length_skipn. lia.
Qed.

(** On a series that is not constant and has at most twelve values the
    seasonal search raises, and the cell raises with it: the fixed-order
    model after it is never fitted. *)
Lemma seasonal_forecast_raises_on_short_series
    (arima_model : Type)
    (ocsb_differencing_term : list Q -> nat -> nat)
    (stepwise_search : list Q -> nat -> nat -> arima_model)
    (fit_arima : list Q -> nat * nat * nat -> arima_model)
    (predict : arima_model -> nat -> list Q)
    (monthly_spend resampled : list Q) :
  (length monthly_spend <= 12)%nat ->
  is_constant monthly_spend = false ->
  seasonal_forecast_cell ocsb_differencing_term stepwise_search fit_arima
                         predict monthly_spend resampled
    = Raise ValueError.
Proof.
  intros Hlen Hconst. unfold seasonal_forecast_cell, auto_arima, nsdiffs.
  rewrite Hconst, diff_lag_length.
  replace (length monthly_spend - 12)%nat with 0%nat by lia.
  reflexivity.
Qed.

(** C8, the code at the failing input: on the eleven monthly totals from
    May 2024 to March 2025 the forecasting cell raises [ValueError],
    whatever the estimators are; the length of the series is not checked
    first and no non-seasonal forecast is returned in its place. *)
Theorem seasonal_forecast_raises_on_eleven_months :
  forall (arima_model : Type)
         (ocsb_differencing_term : list Q -> nat -> nat)
         (stepwise_search : list Q -> nat -> nat -> arima_model)
         (fit_arima : list Q -> nat * nat * nat -> arima_model)
         (predict : arima_model -> nat -> list Q)
         (resampled : list Q),
    seasonal_forecast_cell ocsb_differencing_term stepwise_search fit_arima
                           predict sample_monthly_spend resampled
      = Raise ValueError.
Proof.
  intros. apply seasonal_forecast_raises_on_short_series.
  - cbn. lia.
  - reflexivity.
Qed.

(** ** The monthly series holds at most eleven months *)

Example to_period_M_may_2024 : to_period_M (Timestamp 2024 5 1) = 652.
Proof. reflexivity. Qed.

Example to_period_M_march_2025 :
  to_period_M (Timestamp 2025 3 31 + 86399 * 1000000000) = 662.
Proof. reflexivity. Qed.

Example sample_monthly_series :
  monthly_spend_by_month sample_merged
    = [(652, 2550 # 100); (653, 10 # 1); (654, 120 # 1); (657, 40 # 1);
       (658, 60 # 1); (659, 300 # 1); (662, 5 # 1)].
Proof. vm_compute. reflexivity. Qed.

Lemma month_of_day_in_load_range (d : Z) :
  days_from_civil 2024 5 1 <= d <= days_from_civil 2025 3 31 ->
  652 <= month_of_day d <= 662.
Proof.
  intros Hd.
  assert (Hall : forallb (fun n => let d := 19844 + Z.of_nat n in
                            (652 <=? month_of_day d) && (month_of_day d <=? 662))
                         (seq 0 335) = true) by (vm_compute; reflexivity).
  rewrite forallb_forall in Hall.
  change (days_from_civil 2024 5 1) with 19844 in Hd.
  change (days_from_civil 2025 3 31) with 20178 in Hd.
  specialize (Hall (Z.to_nat (d - 19844))).
  cbv zeta in Hall. rewrite Z2Nat.id in Hall by lia.
  replace (19844 + (d - 19844)) with d in Hall by lia.
  apply andb_true_iff in Hall as [H1 H2].
  - apply Z.leb_le in H1, H2. lia.
  - apply in_seq. lia.
Qed.

Lemma to_period_M_in_load_range (t : Z) :
  load_start <= t <= load_end -> 652 <= to_period_M t <= 662.
Proof.
  unfold load_start, load_end, Timestamp, to_period_M. intros [Hlo Hhi].
  apply month_of_day_in_load_range.
  change (days_from_civil 2024 5 1) with 19844 in *.
  change (days_from_civil 2025 3 31) with 20178 in *.
  change ns_per_day with 86400000000000 in *.
  split.
  - apply Z.div_le_lower_bound; lia.
  - apply Z.div_le_upper_bound; lia.
Qed.

Lemma add_group_sorted (k : Z) (v : Q) (groups : list (Z * Q)) :
  StronglySorted Z.lt (map fst groups) ->
  StronglySorted Z.lt (map fst (add_group k v groups)).
Proof.
  induction groups as [|[k0 s0] groups IH]; cbn [add_group map fst]; intros Hs.
  - constructor; constructor.
  - apply StronglySorted_inv in Hs as [Hs Hall].
    destruct (Z.ltb_spec k k0) as [Hlt|Hge].
    + cbn [map fst]. constructor.
      * now constructor.
      * constructor; [assumption|].
        eapply Forall_impl; [|exact Hall]. intros z Hz. cbv beta in *. lia.
    + destruct (Z.eqb_spec k k0) as [->|Hne]; cbn [map fst].
      * now constructor.
      * constructor; [now apply IH|].
        apply Forall_forall. intros z Hz.
        apply add_group_keys in Hz as [->|Hz]; [lia|].
        rewrite Forall_forall in Hall. now apply Hall.
Qed.

Lemma groupby_sum_sorted (rows : list (Z * Q)) :
  StronglySorted Z.lt (map fst (groupby_sum rows)).
Proof.
  unfold groupby_sum.
  assert (H : forall groups,
             StronglySorted Z.lt (map fst groups) ->
             StronglySorted Z.lt
               (map fst (fold_left
                           (fun groups row => add_group (fst row) (snd row) groups)
                           rows groups))).
  { induction rows as [|row rows IH]; intros groups Hs; cbn [fold_left].
    - assumption.
    - apply IH. now apply add_group_sorted. }
  apply H. constructor.
Qed.

Lemma strictly_sorted_NoDup (l : list Z) : StronglySorted Z.lt l -> NoDup l.
Proof.
  induction 1 as [|a l Hs IH Hall]; constructor; [|assumption].
  intros Hin. rewrite Forall_forall in Hall. specialize (Hall a Hin). lia.
Qed.

Lemma bounded_NoDup_length (lo : Z) (n : nat) (l : list Z) :
  NoDup l ->
  (forall k, In k l -> lo <= k < lo + Z.of_nat n) ->
  (length l <= n)%nat.
Proof.
  intros Hnd Hb.
  rewrite <- (length_seq n 0), <- (length_map (fun i => lo + Z.of_nat i)).
  apply NoDup_incl_length; [assumption|].
  intros k Hk. specialize (Hb k Hk). apply in_map_iff.
  exists (Z.to_nat (k - lo)). split; [lia|]. apply in_seq. lia.
Qed.

Lemma dropna_keys_In (A B : Type) (key : A -> option B) (rows : list A) (b : B) :
  In b (dropna_keys key rows) <-> exists r, In r rows /\ key r = Some b.
Proof.
  induction rows as [|r rows IH]; cbn [dropna_keys].
  - simpl. split; [contradiction | intros (r & [] & _)].
  - destruct (key r) as [b0|] eqn:Hk; cbn [In]; rewrite IH; split.
    + intros [<-|(r0 & Hr0 & E)]; [exists r; auto | exists r0; auto].
    + intros (r0 & [<-|Hr0] & E); [left; congruence | right; eauto].
    + intros (r0 & Hr0 & E). exists r0; auto.
    + intros (r0 & [<-|Hr0] & E); [congruence | eauto].
Qed.

Lemma merge_accounts_rows (transactions : list transaction)
    (accounts : list account) (row : transaction_row) :
  In row (merge_accounts transactions accounts) ->
  In (tr_transaction row) transactions.
Proof.
  unfold merge_accounts. intros Hrow.
  apply in_map_iff in Hrow as (x & <- & Hx).
  rewrite attach_account_transaction.
  apply (merge_left_left_rows tx_current_account_nbr current_account_nbr
                              transactions accounts).
  now apply in_map.
Qed.

(** Whatever the source files hold, the monthly series of the loaded
    transactions has at most the eleven months from May 2024 to March
    2025. *)
Lemma monthly_spend_at_most_eleven_months
    (files : list (list transaction)) (accounts : list account) :
  (length (monthly_spend (merge_accounts (load_transactions files) accounts))
   <= 11)%nat.
Proof.
  unfold monthly_spend, monthly_spend_by_month.
  rewrite length_map, <- (length_map fst).
  apply (@bounded_NoDup_length 652 11).
  - apply strictly_sorted_NoDup, groupby_sum_sorted.
  - intros k Hk. apply (proj1 (groupby_sum_keys _ _)) in Hk.
    apply in_map_iff in Hk as ([k0 v] & <- & Hkv). cbn [fst].
    apply dropna_keys_In in Hkv as (row & Hrow & Hm).
    unfold month_amount in Hm.
    destruct (transaction_date (tr_transaction row)) as [t|] eqn:Ht;
      [|discriminate].
    injection Hm as <- _.
    apply merge_accounts_rows in Hrow.
    rewrite load_transactions_filter in Hrow.
    apply filter_In in Hrow as [_ Hmask].
    unfold mask in Hmask. apply between_spec in Hmask as (t' & Ht' & Hrange).
    rewrite Ht in Ht'. injection Ht' as <-.
    pose proof (to_period_M_in_load_range Hrange). lia.
Qed.

(* ================================================================== *)
(** * Part III. Further properties of the pipeline                     *)
(* ================================================================== *)

(** ** Snapshot sorting and enrichment *)

Lemma stable_sort_Permutation (A : Type) (le : A -> A -> bool) (l : list A) :
  Permutation (stable_sort le l) l.
Proof.
  induction l as [|a l IH]; cbn [stable_sort]; [constructor|].
  destruct (insert_sorted_split le a (stable_sort le l))
    as (t1 & t2 & Hl & -> & _).
  symmetry. apply Permutation_cons_app. rewrite <- Hl. now symmetry.
Qed.

Lemma StronglySorted_weaken (A : Type) (R R' : A -> A -> Prop) (l : list A) :
  (forall a b, R a b -> R' a b) ->
  StronglySorted R l -> StronglySorted R' l.
Proof.
  intros HR. induction 1 as [|a l Hs IH Hall]; constructor; [assumption|].
  eapply Forall_impl; [|exact Hall]. intros b. apply HR.
Qed.

Lemma StronglySorted_map (A B : Type) (f : A -> B) (R : B -> B -> Prop)
    (l : list A) :
  StronglySorted (fun a b => R (f a) (f b)) l -> StronglySorted R (map f l).
Proof.
  induction 1 as [|a l Hs IH Hall]; cbn [map]; constructor; [assumption|].
  apply Forall_forall. intros b Hb. apply in_map_iff in Hb as (x & <- & Hx).
  rewrite Forall_forall in Hall. now apply Hall.
Qed.

Lemma rams_le_before (r1 r2 : rams_row) :
  rams_le r1 r2 = true <-> rams_before r1 r2.
Proof.
  unfold rams_le, rams_before.
  rewrite orb_true_iff, andb_true_iff, Z.ltb_lt, Z.eqb_eq, date_desc_le_spec.
  tauto.
Qed.

(** X1: when the account numbers of the snapshot table are 64-bit
    integers, sorting the table loses and invents no row (the sorted
    table is a rearrangement of the original one), and in the sorted
    table accounts ascend and, within an account, processing dates
    descend with missing dates last. *)
Theorem sort_values_rams_sorted_rearrangement :
  forall rams : list rams_row,
    Forall (fun r => int64_range (cu_account_nbr r)) rams ->
    Permutation (sort_values_rams rams) rams /\
    StronglySorted rams_before (sort_values_rams rams).
Proof.
  intros rams _. unfold sort_values_rams. split.
  - apply stable_sort_Permutation.
  - eapply StronglySorted_weaken;
      [|exact (@stable_sort_sorted _ _ rams_le_total rams_le_trans rams)].
    intros a b. apply rams_le_before.
Qed.

Lemma sample_rams_int64 :
  Forall (fun r => int64_range (cu_account_nbr r)) sample_rams.
Proof.
  unfold sample_rams. repeat constructor; cbn [cu_account_nbr]; lia.
Qed.

Lemma sort_values_rams_sorted_rearrangement_witness :
  Forall (fun r => int64_range (cu_account_nbr r)) sample_rams /\
  Permutation (sort_values_rams sample_rams) sample_rams /\
  StronglySorted rams_before (sort_values_rams sample_rams).
Proof.
  split; [exact sample_rams_int64|].
  exact (@sort_values_rams_sorted_rearrangement sample_rams sample_rams_int64).
Defined.

Lemma drop_duplicates_seen_In (A : Type) (key : A -> Z) (l : list A) :
  forall (seen : list Z) (r : A),
    In r (drop_duplicates_seen key seen l) -> In r l.
Proof.
  induction l as [|a l IH]; intros seen r Hr; [contradiction|].
  cbn [drop_duplicates_seen] in Hr. destruct (memZ (key a) seen).
  - right. now apply IH with seen.
  - destruct Hr as [<-|Hr]; [now left | right; now apply IH with (key a :: seen)].
Qed.

Lemma drop_duplicates_seen_sorted (A : Type) (key : A -> Z)
    (R : A -> A -> Prop) (l : list A) :
  StronglySorted R l ->
  forall seen, StronglySorted R (drop_duplicates_seen key seen l).
Proof.
  induction 1 as [|a l Hs IH Hall]; intros seen; cbn [drop_duplicates_seen].
  - constructor.
  - destruct (memZ (key a) seen); [apply IH|].
    constructor; [apply IH|].
    apply Forall_forall. intros b Hb. rewrite Forall_forall in Hall.
    apply Hall. now apply drop_duplicates_seen_In in Hb.
Qed.

Lemma drop_duplicates_seen_strict (A : Type) (key : A -> Z) (l : list A) :
  StronglySorted Z.le (map key l) ->
  forall seen, StronglySorted Z.lt (map key (drop_duplicates_seen key seen l)).
Proof.
  induction l as [|a l IH]; intros Hs seen; cbn [drop_duplicates_seen map].
  - constructor.
  - cbn [map] in Hs. apply StronglySorted_inv in Hs as [Hs Hall].
    destruct (memZ (key a) seen); [now apply IH|].
    cbn [map]. constructor; [now apply IH|].
    apply Forall_forall. intros k Hk.
    apply drop_duplicates_seen_keys in Hk as [Hk Hn].
    rewrite Forall_forall in Hall. specialize (Hall k Hk).
    assert (k <> key a) by (intros ->; apply Hn; now left). lia.
Qed.

Lemma drop_duplicates_seen_unique (A : Type) (key : A -> Z) (l : list A) :
  NoDup (map key l) ->
  forall seen,
    (forall k, In k (map key l) -> ~ In k seen) ->
    drop_duplicates_seen key seen l = l.
Proof.
  induction l as [|a l IH]; intros Hnd seen Hseen; [reflexivity|].
  cbn [drop_duplicates_seen]. cbn [map] in Hnd, Hseen.
  inversion Hnd as [|? ? Hnotin Hnd']; subst.
  rewrite (proj2 (memZ_not_In (key a) seen)) by (apply Hseen; now left).
  f_equal. apply IH; [assumption|].
  intros k Hk [<-|Hin]; [contradiction|].
  apply (Hseen k); [now right | assumption].
Qed.

Lemma stable_sort_sorted_id (A : Type) (le : A -> A -> bool) (l : list A) :
  StronglySorted (fun a b => le a b = true) l -> stable_sort le l = l.
Proof.
  induction 1 as [|a l Hs IH Hall]; cbn [stable_sort]; [reflexivity|].
  rewrite IH. destruct l as [|b l']; [reflexivity|].
  cbn [insert_sorted]. apply Forall_inv in Hall. now rewrite Hall.
Qed.

Lemma rams_latest_sorted (rams : list rams_row) :
  StronglySorted (fun a b => rams_le a b = true) (rams_latest rams).
Proof.
  unfold rams_latest, drop_duplicates, sort_values_rams.
  apply drop_duplicates_seen_sorted.
  exact (@stable_sort_sorted _ _ rams_le_total rams_le_trans rams).
Qed.

Lemma rams_latest_NoDup (rams : list rams_row) :
  NoDup (map cu_account_nbr (rams_latest rams)).
Proof. apply drop_duplicates_seen_NoDup. Qed.

(** X2: when the account numbers of the snapshot table are 64-bit
    integers, the table of latest snapshots lists the accounts in strictly
    increasing order of account number, and deduplicating it again
    changes nothing. *)
Theorem rams_latest_increasing_idempotent :
  forall rams : list rams_row,
    Forall (fun r => int64_range (cu_account_nbr r)) rams ->
    StronglySorted Z.lt (map cu_account_nbr (rams_latest rams)) /\
    rams_latest (rams_latest rams) = rams_latest rams.
Proof.
  intros rams _. split.
  - unfold rams_latest, drop_duplicates, sort_values_rams.
    apply drop_duplicates_seen_strict. apply StronglySorted_map.
    eapply StronglySorted_weaken;
      [|exact (@stable_sort_sorted _ _ rams_le_total rams_le_trans rams)].
    intros a b Hab. apply rams_le_before in Hab.
    cbv beta. unfold rams_before in Hab. lia.
  - unfold rams_latest at 1. unfold sort_values_rams, drop_duplicates.
    rewrite stable_sort_sorted_id by apply rams_latest_sorted.
    apply drop_duplicates_seen_unique; [apply rams_latest_NoDup|].
    intros k _ [].
Qed.

Lemma rams_latest_increasing_idempotent_witness :
  Forall (fun r => int64_range (cu_account_nbr r)) sample_rams /\
  StronglySorted Z.lt (map cu_account_nbr (rams_latest sample_rams)) /\
  rams_latest (rams_latest sample_rams) = rams_latest sample_rams.
Proof.
  split; [exact sample_rams_int64|].
  exact (@rams_latest_increasing_idempotent sample_rams sample_rams_int64).
Defined.

(** X3: joining the latest snapshots onto the account table keeps the
    account table as it is, row by row and in order, whatever the
    snapshot table holds; an account gets the retained snapshot of its
    own number, and gets none exactly when the snapshot table has no row
    for it. *)
Theorem enrich_accounts_keeps_accounts :
  forall (accounts : list account) (rams : list rams_row),
    map fst (enrich_accounts accounts rams) = accounts /\
    forall row : account_row,
      In row (enrich_accounts accounts rams) ->
      match snd row with
      | Some r => In r (rams_latest rams) /\
                  cu_account_nbr r = current_account_nbr (fst row)
      | None => forall r, In r rams ->
                          cu_account_nbr r <> current_account_nbr (fst row)
      end.
Proof.
  intros accounts rams. unfold enrich_accounts.
  rewrite merge_left_unique by apply rams_latest_NoDup. split.
  - rewrite map_map. cbn [fst]. apply map_id.
  - intros row Hrow. apply in_map_iff in Hrow as (a & <- & _). cbn [fst snd].
    destruct (find _ (rams_latest rams)) as [r|] eqn:Hfind.
    + apply find_some in Hfind as [Hin Hk]. apply Z.eqb_eq in Hk. now split.
    + intros r Hr Hk.
      assert (Hkey : In (cu_account_nbr r) (map cu_account_nbr (rams_latest rams))).
      { unfold rams_latest, drop_duplicates, sort_values_rams.
        apply drop_duplicates_seen_keys. split; [|intros []].
        apply in_map. now apply stable_sort_In. }
      apply in_map_iff in Hkey as (r' & Hk' & Hr').
      pose proof (find_none _ _ Hfind r' Hr') as Hf. cbv beta in Hf.
      apply Z.eqb_neq in Hf. congruence.
Qed.

(** ** Ingestion and the account join without assumptions *)

Lemma chunks_fuel_bounded (A : Type) (n : nat) (fuel : nat) :
  forall (l : list A) (chunk : list A),
    In chunk (chunks_fuel fuel n l) ->
    (length chunk <= n)%nat /\ (0 < n -> 0 < length chunk)%nat.
Proof.
  induction fuel as [|fuel IH]; intros l chunk Hin; [contradiction|].
  cbn [chunks_fuel] in Hin. destruct l as [|a l']; [contradiction|].
  destruct Hin as [<-|Hin]; [|now apply IH with (skipn n (a :: l'))].
  split; [apply firstn_le_length|].
  intros Hn. rewrite length_firstn. cbn [length]. lia.
Qed.

(** X4: each file is read in pieces of at most [chunksize] = 100000
    rows; a file without rows gives exactly one piece, which is empty,
    and the pieces of a file with rows are all non-empty; so each filtered
    piece appended to the list of tables has at most 100000 rows. *)
Theorem chunks_are_bounded :
  forall (files : list (list transaction)),
    (forall file chunk,
        In file files -> In chunk (read_csv_chunks chunksize file) ->
        (length chunk <= chunksize)%nat /\
        (file <> [] -> 0 < length chunk)%nat) /\
    read_csv_chunks chunksize (@nil transaction) = [[]] /\
    (forall chunk, In chunk (transactions_list files) ->
                   (length chunk <= chunksize)%nat).
Proof.
  intros files.
  assert (Hraw : forall (file chunk : list transaction),
             In chunk (read_csv_chunks chunksize file) ->
             (length chunk <= chunksize)%nat /\
             (file <> [] -> 0 < length chunk)%nat).
  { intros file chunk Hin. unfold read_csv_chunks in Hin.
    destruct file as [|t file].
    - destruct Hin as [<-|[]]. split; [cbn; lia | congruence].
    - apply chunks_fuel_bounded in Hin as [Hle Hpos].
      split; [exact Hle | intros _; apply Hpos, chunksize_pos]. }
  split; [|split; [reflexivity|]].
  - intros file chunk _. apply Hraw.
  - intros chunk Hin. unfold transactions_list in Hin.
    apply in_flat_map in Hin as (file & _ & Hin).
    apply in_map_iff in Hin as (raw & <- & Hraw').
    apply Hraw in Hraw' as [Hle _].
    pose proof (filter_length_le mask raw). lia.
Qed.

Lemma merge_left_length (L R : Type) (lkey : L -> Z) (rkey : R -> Z)
    (left : list L) (right : list R) :
  length (merge_left lkey rkey left right)
    = list_sum (map (fun l => Nat.max 1
                                (length (filter (fun r => rkey r =? lkey l) right)))
                    left).
Proof.
  unfold merge_left. induction left as [|l left IH]; [reflexivity|].
  cbn [flat_map]. rewrite length_app, IH.
  change (map ?f (l :: left)) with (f l :: map f left).
  cbv beta. unfold list_sum. cbn [fold_right]. f_equal.
  destruct (filter (fun r => rkey r =? lkey l) right) as [|r ms];
    [reflexivity|].
  rewrite length_map. cbn [length]. lia.
Qed.

(** X5: whatever the account table holds, the left join drops no
    transaction: the transactions of the joined table are those of the
    input, and a transaction appears once per account row carrying its
    account number (once when there is none), so duplicate account rows
    multiply transaction rows and the joined table is never shorter than
    the input. *)
Theorem left_join_never_drops_rows :
  forall (transactions : list transaction) (accounts : list account),
    (forall t, In t (map tr_transaction (merge_accounts transactions accounts))
               <-> In t transactions) /\
    length (merge_accounts transactions accounts)
      = list_sum
          (map (fun t => Nat.max 1
                  (length (filter (fun a => current_account_nbr a
                                            =? tx_current_account_nbr t)
                                  accounts)))
               transactions) /\
    (length transactions <= length (merge_accounts transactions accounts))%nat.
Proof.
  intros transactions accounts.
  assert (Hlen : length (merge_accounts transactions accounts)
                 = list_sum
                     (map (fun t => Nat.max 1
                             (length (filter (fun a => current_account_nbr a
                                                       =? tx_current_account_nbr t)
                                             accounts)))
                          transactions)).
  { unfold merge_accounts. rewrite length_map. apply merge_left_length. }
  split; [|split; [exact Hlen|]].
  - intros t. unfold merge_accounts. rewrite map_map.
    rewrite <- (merge_left_left_rows tx_current_account_nbr current_account_nbr
                                     transactions accounts t).
    rewrite !in_map_iff. split.
    + intros (x & <- & Hx). exists x. split; [|assumption].
      now rewrite attach_account_transaction.
    + intros (x & <- & Hx). exists x. split; [|assumption].
      now rewrite attach_account_transaction.
  - rewrite Hlen. clear Hlen.
    unfold list_sum.
    induction transactions as [|t transactions IH]; cbn [map fold_right length];
      lia.
Qed.

Example duplicate_account_rows_duplicate_transactions :
  length (merge_accounts sample_transactions
            (mkAccount 101 70 None None None :: sample_accounts)) = 6%nat.
Proof. reflexivity. Qed.

(** ** Feature and label windows *)

Lemma between_disjoint (d : option Z) (lo1 hi1 lo2 hi2 : Z) :
  hi1 < lo2 -> between d lo1 hi1 = true -> between d lo2 hi2 = false.
Proof.
  intros Hlt H1. apply between_spec in H1 as (t & -> & Ht).
  unfold between, date_ge. apply andb_false_iff. left.
  apply Z.leb_gt. lia.
Qed.

Lemma between_nested (d : option Z) (lo1 hi1 lo2 hi2 : Z) :
  lo2 <= lo1 -> hi1 <= hi2 -> between d lo1 hi1 = true -> between d lo2 hi2 = true.
Proof.
  intros Hlo Hhi H1. apply between_spec in H1 as (t & -> & Ht).
  apply between_spec. exists t. split; [reflexivity | lia].
Qed.

(** X6: no transaction is counted both in the feature sum (May to
    September 2024) and in the label sum (October to December 2024), and
    both windows lie inside the range of loaded transactions. *)
Theorem feature_and_label_windows_disjoint :
  forall row : transaction_row,
    (msk row = true -> msk_q4 row = false) /\
    (msk_q4 row = true -> msk row = false) /\
    (msk row = true -> mask (tr_transaction row) = true) /\
    (msk_q4 row = true -> mask (tr_transaction row) = true).
Proof.
  intros row. unfold msk, msk_q4, mask, load_start, load_end.
  repeat split.
  - apply between_disjoint. reflexivity.
  - intros H. destruct (between _ (Timestamp 2024 5 1) _) eqn:E; [|reflexivity].
    apply (@between_disjoint _ _ _ (Timestamp 2024 10 1) (Timestamp 2024 12 31))
      in E; [congruence | reflexivity].
  - apply between_nested; [discriminate | discriminate].
  - apply between_nested; [discriminate | discriminate].
Qed.

(** ** One feature row per account *)

Lemma join_inner_sorted_keys (L R : Type) (lkey : L -> Z) (rkey : R -> Z)
    (left : list L) (right : list R) :
  StronglySorted Z.lt (map lkey left) ->
  NoDup (map rkey right) ->
  StronglySorted Z.lt
    (map (fun p => lkey (fst p)) (join_inner lkey rkey left right)).
Proof.
  intros Hs Hnd. unfold join_inner.
  induction left as [|l left IH]; cbn [flat_map map]; [constructor|].
  cbn [map] in Hs. apply StronglySorted_inv in Hs as [Hs Hall].
  specialize (IH Hs). rewrite filter_unique_key by assumption.
  destruct (find (fun r => rkey r =? lkey l) right) as [r|]; cbn [map app];
    [|exact IH].
  constructor; [exact IH|].
  apply Forall_forall. intros k Hk.
  apply in_map_iff in Hk as ([l' r'] & <- & Hin). cbn [fst].
  apply (join_inner_In lkey rkey left right l' r') in Hin as (Hl' & _).
  rewrite Forall_forall in Hall. apply Hall. now apply in_map.
Qed.

(** X8: when account numbers are 64-bit integers in the transaction
    table and in the account table, and the account number is unique in
    the account table, the feature table has one row per account, in
    strictly increasing order of account number. *)
Theorem features_df_one_row_per_account :
  forall (transactions : list transaction_row) (accounts : list account_row),
    Forall (fun row => int64_range (tx_current_account_nbr (tr_transaction row)))
           transactions ->
    Forall (fun a : account_row => int64_range (current_account_nbr (fst a)))
           accounts ->
    NoDup (map (fun a : account_row => current_account_nbr (fst a)) accounts) ->
    StronglySorted Z.lt (map feature_account (features_df transactions accounts)) /\
    NoDup (map feature_account (features_df transactions accounts)).
Proof.
  intros transactions accounts _ _ Hnd.
  assert (Hs : StronglySorted Z.lt
                 (map feature_account (features_df transactions accounts))).
  { unfold features_df.
    rewrite merge_left_unique by assumption. rewrite !map_map.
    rewrite (map_ext _ (fun p : (Z * Q) * (Z * Q) => fst (fst p)))
      by (intros [[k s] q]; reflexivity).
    apply (join_inner_sorted_keys (@fst Z Q) (@fst Z Q)).
    - apply groupby_sum_sorted.
    - apply strictly_sorted_NoDup, groupby_sum_sorted. }
  split; [exact Hs | now apply strictly_sorted_NoDup].
Qed.

Lemma features_df_one_row_per_account_witness :
  Forall (fun row => int64_range (tx_current_account_nbr (tr_transaction row)))
         sample_merged /\
  Forall (fun a : account_row => int64_range (current_account_nbr (fst a)))
         sample_enriched /\
  NoDup (map (fun a : account_row => current_account_nbr (fst a)) sample_enriched) /\
  StronglySorted Z.lt
    (map feature_account (features_df sample_merged sample_enriched)).
Proof.
  assert (H1 : Forall (fun row => int64_range
                                    (tx_current_account_nbr (tr_transaction row)))
                      sample_merged).
  { apply Forall_forall. intros row Hrow. vm_compute in Hrow.
    repeat (destruct Hrow as [<-|Hrow];
            [unfold int64_range; cbn [tx_current_account_nbr tr_transaction]; lia|]).
    contradiction. }
  assert (H2 : Forall (fun a : account_row =>
                         int64_range (current_account_nbr (fst a)))
                      sample_enriched).
  { apply Forall_forall. intros a Ha. vm_compute in Ha.
    repeat (destruct Ha as [<-|Ha];
            [unfold int64_range; cbn [current_account_nbr fst]; lia|]).
    contradiction. }
  assert (H3 : NoDup (map (fun a : account_row => current_account_nbr (fst a))
                          sample_enriched)).
  { vm_compute. repeat constructor; cbn; intuition discriminate. }
  split; [exact H1|]. split; [exact H2|]. split; [exact H3|].
  exact (proj1 (@features_df_one_row_per_account
                  sample_merged sample_enriched H1 H2 H3)).
Defined.

Lemma features_df_fills_zero_witness :
  In (mkFeatureRow 101 (2550 # 100) (40 # 1) 0 0)
     (features_df sample_merged (enrich_accounts sample_accounts [])) /\
  (forall acc, In acc (enrich_accounts sample_accounts []) ->
               current_account_nbr (fst acc) = 101 -> snd acc = None) /\
  feature_cu_crd_line (mkFeatureRow 101 (2550 # 100) (40 # 1) 0 0) = 0%Q.
Proof.
  assert (H1 : In (mkFeatureRow 101 (2550 # 100) (40 # 1) 0 0)
                  (features_df sample_merged (enrich_accounts sample_accounts [])))
    by (vm_compute; now left).
  assert (H2 : forall acc, In acc (enrich_accounts sample_accounts []) ->
                 current_account_nbr (fst acc) = 101 -> snd acc = None).
  { intros acc Hacc _. vm_compute in Hacc.
    repeat (destruct Hacc as [<-|Hacc]; [reflexivity|]). contradiction. }
  split; [exact H1|]. split; [exact H2|].
  exact (proj1 (@features_df_fills_zero _ _ _ H1 H2)).
Defined.

(** ** The monthly series *)

Lemma loaded_row_dated (files : list (list transaction)) (accounts : list account)
    (row : transaction_row) :
  In row (merge_accounts (load_transactions files) accounts) ->
  exists t, transaction_date (tr_transaction row) = Some t /\
            load_start <= t <= load_end.
Proof.
  intros Hrow. apply merge_accounts_rows in Hrow.
  rewrite load_transactions_filter in Hrow.
  apply filter_In in Hrow as [_ Hmask]. now apply between_spec in Hmask.
Qed.

(** X9: on the loaded transactions the monthly series lists months in
    strictly increasing order and every month lies between May 2024 and
    March 2025, so the series has at most eleven values, whatever the
    source files hold. *)
Theorem monthly_series_of_loaded_transactions :
  forall (files : list (list transaction)) (accounts : list account),
    let transactions := merge_accounts (load_transactions files) accounts in
    StronglySorted Z.lt (map fst (monthly_spend_by_month transactions)) /\
    (forall m, In m (map fst (monthly_spend_by_month transactions)) ->
               to_period_M (Timestamp 2024 5 1) <= m
               <= to_period_M (Timestamp 2025 3 31)) /\
    (length (monthly_spend transactions) <= 11)%nat.
Proof.
  intros files accounts transactions.
  assert (Hrange : forall m,
             In m (map fst (monthly_spend_by_month transactions)) ->
             652 <= m <= 662).
  { intros m Hm. unfold monthly_spend_by_month in Hm.
    apply (proj1 (groupby_sum_keys _ _)) in Hm.
    apply in_map_iff in Hm as ([m0 v] & <- & Hmv). cbn [fst].
    apply dropna_keys_In in Hmv as (row & Hrow & Hm).
    apply loaded_row_dated in Hrow as (t & Ht & Hrange).
    unfold month_amount in Hm. rewrite Ht in Hm. injection Hm as <- _.
    now apply to_period_M_in_load_range. }
  split; [apply groupby_sum_sorted|]. split; [exact Hrange|].
  unfold monthly_spend. rewrite length_map, <- (length_map fst).
  apply (@bounded_NoDup_length 652 11).
  - apply strictly_sorted_NoDup, groupby_sum_sorted.
  - intros m Hm. specialize (Hrange m Hm). lia.
Qed.

(** X19: whatever the source files hold and however the monthly totals
    come out, a monthly series over the months of the loaded transactions
    whose values are not all equal makes the seasonal search of the
    forecasting cell raise [ValueError]: the load filter leaves at most
    eleven months, fewer than the seasonal period 12. *)
Theorem seasonal_forecast_raises_on_loaded_months :
  forall (arima_model : Type)
         (ocsb_differencing_term : list Q -> nat -> nat)
         (stepwise_search : list Q -> nat -> nat -> arima_model)
         (fit_arima : list Q -> nat * nat * nat -> arima_model)
         (predict : arima_model -> nat -> list Q)
         (files : list (list transaction)) (accounts : list account)
         (totals resampled : list Q),
    length totals
      = length (monthly_spend_by_month
                  (merge_accounts (load_transactions files) accounts)) ->
    is_constant totals = false ->
    seasonal_forecast_cell ocsb_differencing_term stepwise_search fit_arima
                           predict totals resampled
      = Raise ValueError.
Proof.
  intros arima_model ocsb stepwise fit predict files accounts totals resampled
         Hlen Hconst.
  apply seasonal_forecast_raises_on_short_series; [|assumption].
  pose proof (monthly_spend_at_most_eleven_months files accounts) as Hmonths.
  unfold monthly_spend in Hmonths. rewrite length_map in Hmonths. lia.
Qed.

Lemma seasonal_forecast_raises_on_loaded_months_witness :
  length [2550 # 100; 10; 120; 40; 60; 300; 5]%Q
    = length (monthly_spend_by_month
                (merge_accounts (load_transactions sample_files) sample_accounts)) /\
  is_constant [2550 # 100; 10; 120; 40; 60; 300; 5]%Q = false /\
  seasonal_forecast_cell (fun _ _ => 0%nat) (fun _ _ _ => tt) (fun _ _ => tt)
    (fun _ _ => @nil Q) [2550 # 100; 10; 120; 40; 60; 300; 5]%Q []
    = Raise ValueError.
Proof.
  assert (H1 : length [2550 # 100; 10; 120; 40; 60; 300; 5]%Q
               = length (monthly_spend_by_month
                           (merge_accounts (load_transactions sample_files)
                                           sample_accounts)))
    by (vm_compute; reflexivity).
  assert (H2 : is_constant [2550 # 100; 10; 120; 40; 60; 300; 5]%Q = false)
    by reflexivity.
  split; [exact H1|]. split; [exact H2|].
  exact (@seasonal_forecast_raises_on_loaded_months unit
           (fun _ _ => 0%nat) (fun _ _ _ => tt) (fun _ _ => tt)
           (fun _ _ => @nil Q) sample_files sample_accounts _ [] H1 H2).
Defined.

(** ** Binning *)

Lemma edge_ltb_below (e1 e2 : edge) (x : Q) :
  edge_ltb e1 e2 = true -> edge_below e2 x = true -> edge_below e1 x = true.
Proof.
  destruct e1 as [a|], e2 as [b|]; cbn; try discriminate.
  rewrite !Qltb_lt. intros H1 H2. now apply Qlt_trans with b.
Qed.

Lemma edge_ltb_trans (e1 e2 e3 : edge) :
  edge_ltb e1 e2 = true -> edge_ltb e2 e3 = true -> edge_ltb e1 e3 = true.
Proof.
  destruct e1 as [a|], e2 as [b|], e3 as [c|]; cbn; try discriminate; auto.
  rewrite !Qltb_lt. intros H1 H2. now apply Qlt_trans with b.
Qed.

Lemma strictly_increasing_tail (e : edge) (bins : list edge) :
  strictly_increasing (e :: bins) = true -> strictly_increasing bins = true.
Proof.
  cbn [strictly_increasing]. destruct bins as [|e' bins]; [reflexivity|].
  intros H. now apply andb_true_iff in H.
Qed.

Lemma strictly_increasing_head (e : edge) (bins : list edge) :
  strictly_increasing (e :: bins) = true ->
  forall (j : nat) (b : edge), nth_error bins j = Some b -> edge_ltb e b = true.
Proof.
  revert e. induction bins as [|e' bins IH]; intros e Hs j b Hj.
  - now destruct j.
  - cbn [strictly_increasing] in Hs. apply andb_true_iff in Hs as [He Hs].
    destruct j as [|j]; cbn [nth_error] in Hj.
    + now injection Hj as <-.
    + apply edge_ltb_trans with e'; [assumption|]. now apply IH with j.
Qed.

Lemma searchsorted_left_interval (bins : list edge) (x : Q) :
  strictly_increasing bins = true ->
  forall (i : nat) (lo hi : edge),
    nth_error bins i = Some lo -> nth_error bins (S i) = Some hi ->
    edge_below lo x = true -> edge_below hi x = false ->
    searchsorted_left bins x = S i.
Proof.
  induction bins as [|e bins IH]; intros Hs i lo hi Hlo Hhi Hbelow Habove.
  - now destruct i.
  - destruct i as [|i].
    + cbn [nth_error] in Hlo, Hhi.
      injection Hlo as ->. destruct bins as [|e' bins]; [discriminate|].
      cbn [nth_error] in Hhi. injection Hhi as ->.
      cbn [searchsorted_left]. now rewrite Hbelow, Habove.
    + change (nth_error bins i = Some lo) in Hlo.
      change (nth_error bins (S i) = Some hi) in Hhi.
      cbn [searchsorted_left].
      assert (He : edge_below e x = true).
      { apply edge_ltb_below with lo; [|assumption].
        now apply (@strictly_increasing_head e bins Hs i). }
      rewrite He. f_equal.
      apply IH with lo hi; try assumption.
      now apply strictly_increasing_tail in Hs.
Qed.

Lemma searchsorted_left_bound (bins : list edge) (x : Q) :
  (searchsorted_left bins x <= length bins)%nat.
Proof.
  induction bins as [|e bins IH]; cbn [searchsorted_left length]; [lia|].
  destruct (edge_below e x); lia.
Qed.

Lemma searchsorted_left_all (bins : list edge) (x : Q) :
  (forall e, In e bins -> edge_below e x = true) ->
  searchsorted_left bins x = length bins.
Proof.
  induction bins as [|e bins IH]; intros H; [reflexivity|].
  cbn [searchsorted_left length]. rewrite (H e) by (now left).
  f_equal. apply IH. intros e' He'. apply H. now right.
Qed.

(** X10: for increasing bin edges, binning gives a value the label of
    position [i] when it lies in the interval that is open at edge [i]
    and closed at edge [i+1]; a value that is not above the first edge,
    and a value above every edge, get no label. *)
Theorem cut_value_follows_intervals :
  forall (L : Type) (bins : list edge) (labels : list L) (x : Q),
    strictly_increasing bins = true ->
    (forall (i : nat) (lo hi : edge),
        nth_error bins i = Some lo -> nth_error bins (S i) = Some hi ->
        edge_below lo x = true -> edge_below hi x = false ->
        cut_value bins labels x = nth_error labels i) /\
    (forall first, hd_error bins = Some first -> edge_below first x = false ->
                   cut_value bins labels x = None) /\
    ((forall e, In e bins -> edge_below e x = true) ->
     cut_value bins labels x = None).
Proof.
  intros L bins labels x Hs. repeat split.
  - intros i lo hi Hlo Hhi Hbelow Habove. unfold cut_value.
    rewrite (@searchsorted_left_interval bins x Hs i lo hi Hlo Hhi Hbelow Habove).
    assert (Hlen : (S i < length bins)%nat).
    { apply nth_error_Some. congruence. }
    rewrite (proj2 (Nat.eqb_neq (S i) (length bins))) by lia.
    change (S i =? 0)%nat with false. cbn [orb].
    replace (S i - 1)%nat with i by lia. reflexivity.
  - intros first Hfirst Hnot. unfold cut_value.
    destruct bins as [|e bins]; [discriminate|].
    cbn [hd_error] in Hfirst. injection Hfirst as ->.
    cbn [searchsorted_left]. now rewrite Hnot.
  - intros Hall. unfold cut_value. rewrite searchsorted_left_all by assumption.
    now rewrite Nat.eqb_refl, orb_true_r.
Qed.

Lemma cut_value_follows_intervals_witness :
  strictly_increasing bins = true /\
  cut_value bins labels 1000%Q = nth_error labels 0.
Proof.
  assert (H : strictly_increasing bins = true) by reflexivity.
  split; [exact H|].
  apply (proj1 (@cut_value_follows_intervals tier bins labels 1000%Q H)
           0%nat (Finite 0) (Finite 1000)); reflexivity.
Defined.

Lemma cut_value_positive (x : Q) :
  (0 < x)%Q ->
  cut_value bins labels x
    = Some (if Qle_bool x 1000 then Low
            else if Qle_bool x 10000 then Medium else High).
Proof.
  intros Hx. unfold cut_value, bins. cbn [searchsorted_left edge_below].
  rewrite (proj2 (Qltb_lt 0 x) Hx). unfold Qltb.
  destruct (Qle_bool x 1000) eqn:E1; cbn [negb]; [reflexivity|].
  destruct (Qle_bool x 10000) eqn:E2; reflexivity.
Qed.

Lemma Qle_bool_false (a b : Q) : Qle_bool a b = false -> (b < a)%Q.
Proof.
  intros H. apply Qltb_lt. unfold Qltb. now rewrite H.
Qed.

(** X11: tier assignment is monotonic: of two positive predictions the
    larger one never gets a lower tier. *)
Theorem spending_tier_monotonic :
  forall x y : Q,
    (0 < x)%Q -> (x <= y)%Q ->
    exists tx ty,
      cut_value bins labels x = Some tx /\
      cut_value bins labels y = Some ty /\
      (tier_rank tx <= tier_rank ty)%nat.
Proof.
  intros x y Hx Hxy.
  assert (Hy : (0 < y)%Q) by (now apply Qlt_le_trans with x).
  rewrite (cut_value_positive Hx), (cut_value_positive Hy).
  eexists; eexists. split; [reflexivity|]. split; [reflexivity|].
  destruct (Qle_bool x 1000) eqn:Ex1, (Qle_bool y 1000) eqn:Ey1,
           (Qle_bool x 10000) eqn:Ex2, (Qle_bool y 10000) eqn:Ey2;
    cbn [tier_rank]; try lia; exfalso;
    repeat match goal with
           | H : Qle_bool _ _ = true |- _ => apply Qle_bool_iff in H
           | H : Qle_bool _ _ = false |- _ => apply Qle_bool_false in H
           end; lra.
Qed.

Lemma spending_tier_monotonic_witness :
  (0 < 500)%Q /\ (500 <= 15000)%Q /\
  exists tx ty,
    cut_value bins labels 500%Q = Some tx /\
    cut_value bins labels 15000%Q = Some ty /\
    (tier_rank tx <= tier_rank ty)%nat.
Proof.
  assert (H1 : (0 < 500)%Q) by reflexivity.
  assert (H2 : (500 <= 15000)%Q) by discriminate.
  split; [exact H1|]. split; [exact H2|].
  exact (@spending_tier_monotonic 500%Q 15000%Q H1 H2).
Defined.

Lemma list_sum_Permutation (l1 l2 : list nat) :
  Permutation l1 l2 -> list_sum l1 = list_sum l2.
Proof.
  unfold list_sum.
  induction 1 as [|a l1 l2 H IH|a b l|l1 l2 l3 H1 IH1 H2 IH2];
    cbn [fold_right]; lia.
Qed.

Lemma count_tiers_total (column : list (option tier)) :
  (count_tier Low column + count_tier Medium column + count_tier High column)%nat
    = length (filter (@notna tier) column).
Proof.
  unfold count_tier.
  induction column as [|o column IH]; [reflexivity|].
  destruct o as [[| |]|]; cbn in *; lia.
Qed.

Lemma labelled_are_positive (predicted : list Q) :
  length (filter (@notna tier) (map (cut_value bins labels) predicted))
    = length (filter (Qltb 0) predicted).
Proof.
  induction predicted as [|x predicted IH]; [reflexivity|].
  cbn [map filter]. destruct (Qltb 0 x) eqn:E.
  - rewrite cut_value_positive by (now apply Qltb_lt).
    cbn [notna length]. now rewrite IH.
  - rewrite cut_value_nonpositive by (now apply Qltb_ge). exact IH.
Qed.

(** X12: the tier counts are always produced; they list each of the
    three tiers once, largest count first, and add up to the number of
    predictions above zero. *)
Theorem tier_counts_cover_positive_predictions :
  forall predicted : list Q,
    exists counts,
      tier_counts predicted = Ok counts /\
      Permutation (map fst counts) [Low; Medium; High] /\
      StronglySorted (fun a b => (snd b <= snd a)%nat) counts /\
      list_sum (map snd counts) = length (filter (Qltb 0) predicted).
Proof.
  intros predicted. unfold tier_counts. rewrite spending_tier_total.
  cbn [bind]. eexists. split; [reflexivity|].
  set (column := map (cut_value bins labels) predicted).
  assert (Hperm : Permutation (value_counts column)
                    (map (fun t => (t, count_tier t column)) labels))
    by apply stable_sort_Permutation.
  split; [|split].
  - apply (Permutation_map fst) in Hperm. rewrite map_map in Hperm.
    cbn [fst] in Hperm. now rewrite map_id in Hperm.
  - unfold value_counts.
    eapply StronglySorted_weaken;
      [|apply (@stable_sort_sorted _ (fun a b : tier * nat => (snd b <=? snd a)%nat))].
    + intros a b Hab. cbv beta in Hab. now apply Nat.leb_le in Hab.
    + intros a b Hab. apply Nat.leb_gt in Hab. apply Nat.leb_le. lia.
    + intros a b c Hab Hbc. apply Nat.leb_le in Hab, Hbc. apply Nat.leb_le. lia.
  - apply (Permutation_map snd) in Hperm. apply list_sum_Permutation in Hperm.
    rewrite Hperm, map_map. cbn [snd labels map list_sum fold_right].
    unfold column. rewrite <- labelled_are_positive, <- count_tiers_total. lia.
Qed.

(** ** Risk labels *)

Lemma risk_labels_index (accounts : list account_row) (fraud_cases : list fraud_case)
    (risk_label : list (Z * Z)) :
  risk_labels accounts fraud_cases = Ok risk_label ->
  (forall k, In k (fraud_accounts fraud_cases) ->
             In k (map risk_account (risk_features accounts))) /\
  risk_label
    = map (fun r => (risk_account r,
                     if memZ (risk_account r) (collections_accounts accounts)
                        || memZ (risk_account r) (fraud_accounts fraud_cases)
                     then 1 else 0))
          (risk_features accounts).
Proof.
  unfold risk_labels. intros H.
  destruct (loc_assign (fraud_accounts fraud_cases) 1 _) as [marked|e] eqn:E1;
    [|discriminate].
  cbn [bind] in H.
  apply loc_assign_Ok in E1 as [Hkeys ->].
  apply loc_assign_Ok in H as [_ ->]. split.
  - intros k Hk. specialize (Hkeys k Hk). rewrite map_map in Hkeys.
    exact Hkeys.
  - rewrite !map_map. apply map_ext. intros r. cbn [fst].
    destruct (memZ (risk_account r) (fraud_accounts fraud_cases)); cbn [fst];
      destruct (memZ (risk_account r) (collections_accounts accounts));
      reflexivity.
Qed.

Lemma collections_accounts_In (accounts : list account_row) (k : Z) :
  In k (collections_accounts accounts) <->
  exists acc, In acc accounts /\ current_account_nbr (fst acc) = k /\
              date_in_collection (fst acc) <> None.
Proof.
  unfold collections_accounts. rewrite in_map_iff. split.
  - intros (acc & Hk & Hacc). apply filter_In in Hacc as [Hin Hn].
    exists acc. repeat split; try assumption.
    destruct (date_in_collection (fst acc)); [discriminate | discriminate Hn].
  - intros (acc & Hin & Hk & Hn). exists acc. split; [assumption|].
    apply filter_In. split; [assumption|].
    now destruct (date_in_collection (fst acc)).
Qed.

(** X13: whenever the risk labels are constructed, every row of the
    labelled risk table has label 0 or 1, and the label is 1 exactly when
    the account is in the fraud-case table or some row of the account
    table with its number has a collection date; no other column of the
    account enters the label. *)
Theorem risk_label_is_fraud_or_collections :
  forall (accounts : list account_row) (fraud_cases : list fraud_case)
         (data : list (risk_feature_row * (Z * Z)))
         (row : risk_feature_row * (Z * Z)),
    risk_data accounts fraud_cases = Ok data ->
    In row data ->
    (risk_label_of row = 0 \/ risk_label_of row = 1) /\
    (risk_label_of row = 1 <->
     In (risk_account (fst row)) (map fc_current_account_nbr fraud_cases) \/
     exists acc, In acc accounts /\
                 current_account_nbr (fst acc) = risk_account (fst row) /\
                 date_in_collection (fst acc) <> None).
Proof.
  intros accounts fraud_cases data [f p] Hdata Hrow. unfold risk_data in Hdata.
  destruct (risk_labels accounts fraud_cases) as [risk_label|e] eqn:E;
    [|discriminate].
  cbn [bind] in Hdata. injection Hdata as <-.
  apply risk_labels_index in E as [_ ->].
  apply join_inner_In in Hrow as (_ & Hp & Hk).
  apply in_map_iff in Hp as (r & <- & _). cbn [fst] in Hk.
  unfold risk_label_of. cbn [fst snd]. rewrite <- Hk.
  rewrite <- collections_accounts_In.
  rewrite <- (nodup_In Z.eq_dec). fold (fraud_accounts fraud_cases).
  rewrite <- !memZ_In.
  destruct (memZ (risk_account r) (collections_accounts accounts)),
           (memZ (risk_account r) (fraud_accounts fraud_cases));
    cbn [orb]; split; try (now left); try (now right);
    split; auto; try discriminate; intros [H|H]; discriminate.
Qed.

Lemma risk_label_is_fraud_or_collections_witness :
  risk_data sample_enriched sample_fraud_cases = Ok sample_risk_data /\
  In (mkRiskFeatures 103 None None None None None, (103, 0)) sample_risk_data /\
  (risk_label_of (mkRiskFeatures 103 None None None None None, (103, 0)) = 0 \/
   risk_label_of (mkRiskFeatures 103 None None None None None, (103, 0)) = 1).
Proof.
  assert (H1 : risk_data sample_enriched sample_fraud_cases = Ok sample_risk_data)
    by (vm_compute; reflexivity).
  assert (H2 : In (mkRiskFeatures 103 None None None None None, (103, 0))
                  sample_risk_data)
    by (right; right; now left).
  split; [exact H1|]. split; [exact H2|].
  exact (proj1 (@risk_label_is_fraud_or_collections _ _ _ _ H1 H2)).
Defined.

Lemma forallb_false_exists (A : Type) (f : A -> bool) (l : list A) :
  forallb f l = false -> exists x, In x l /\ f x = false.
Proof.
  induction l as [|a l IH]; cbn [forallb]; [discriminate|].
  destruct (f a) eqn:E; cbn [andb].
  - intros H. destruct (IH H) as (x & Hx & Hf). exists x. split; [now right | exact Hf].
  - intros _. exists a. split; [now left | exact E].
Qed.

(** X14: label construction fails in one way only: it raises [KeyError]
    exactly when some account of the fraud-case table is not in the
    account table; the collections assignment never fails and no other
    error is raised. *)
Theorem risk_data_raises_on_unknown_fraud_account :
  forall (accounts : list account_row) (fraud_cases : list fraud_case),
    (risk_data accounts fraud_cases = Raise KeyError <->
     exists b, In b (map fc_current_account_nbr fraud_cases) /\
               ~ In b (map (fun r : account_row => current_account_nbr (fst r))
                           accounts)) /\
    risk_data accounts fraud_cases <> Raise ValueError.
Proof.
  intros accounts fraud_cases.
  assert (Hidx : map fst (map (fun r => (risk_account r, 0)) (risk_features accounts))
                 = map (fun r : account_row => current_account_nbr (fst r)) accounts).
  { unfold risk_features. rewrite !map_map. reflexivity. }
  unfold risk_data, risk_labels.
  destruct (loc_assign (fraud_accounts fraud_cases) 1 _) as [marked|e] eqn:E1.
  - apply loc_assign_Ok in E1 as [Hkeys ->]. cbn [bind].
    rewrite loc_assign_complete.
    + cbn [bind]. split; [|discriminate]. split; [discriminate|].
      intros (b & Hb & Hn). exfalso. apply Hn. rewrite <- Hidx.
      apply Hkeys. now apply nodup_In.
    + intros k Hk. rewrite loc_assign_index, map_map. cbn [fst].
      now apply collections_accounts_in_index.
  - cbn [bind]. unfold loc_assign in E1.
    destruct (forallb _ (fraud_accounts fraud_cases)) eqn:Hall; [discriminate|].
    injection E1 as <-. split; [|discriminate]. split; [|reflexivity].
    intros _. apply forallb_false_exists in Hall as (b & Hb & Hf).
    exists b. split; [now apply nodup_In in Hb|].
    apply memZ_not_In in Hf. now rewrite Hidx in Hf.
Qed.

Lemma loc_assign_same_keys (keys keys' : list Z) (v : Z) (series : list (Z * Z)) :
  (forall k, In k keys <-> In k keys') ->
  loc_assign keys v series = loc_assign keys' v series.
Proof.
  intros Hsame. unfold loc_assign.
  assert (Hall : forallb (fun k => memZ k (map fst series)) keys
                 = forallb (fun k => memZ k (map fst series)) keys').
  { apply eq_true_iff_eq. rewrite !forallb_forall. split.
    - intros H k Hk. apply H. now apply Hsame.
    - intros H k Hk. apply H. now apply Hsame. }
  rewrite Hall. destruct (forallb _ keys'); [|reflexivity].
  f_equal. apply map_ext. intros p.
  assert (Hmem : memZ (fst p) keys = memZ (fst p) keys').
  { apply eq_true_iff_eq. rewrite !memZ_In. apply Hsame. }
  now rewrite Hmem.
Qed.

(** X15: the labelled risk table depends only on the set of account
    numbers of the fraud-case table: two fraud-case tables naming the same
    accounts, in any order and with any repetitions, give the same
    result, errors included. *)
Theorem risk_data_depends_on_fraud_account_set :
  forall (accounts : list account_row) (fraud_cases fraud_cases' : list fraud_case),
    (forall a, In a (map fc_current_account_nbr fraud_cases) <->
               In a (map fc_current_account_nbr fraud_cases')) ->
    risk_data accounts fraud_cases = risk_data accounts fraud_cases'.
Proof.
  intros accounts fraud_cases fraud_cases' Hsame.
  unfold risk_data, risk_labels.
  rewrite (@loc_assign_same_keys (fraud_accounts fraud_cases)
                                 (fraud_accounts fraud_cases')); [reflexivity|].
  intros k. unfold fraud_accounts. rewrite !nodup_In. apply Hsame.
Qed.

Lemma risk_data_depends_on_fraud_account_set_witness :
  (forall a, In a (map fc_current_account_nbr sample_fraud_cases) <->
             In a (map fc_current_account_nbr [mkFraudCase 101 None])) /\
  risk_data sample_enriched sample_fraud_cases
    = risk_data sample_enriched [mkFraudCase 101 None].
Proof.
  assert (H : forall a, In a (map fc_current_account_nbr sample_fraud_cases) <->
                        In a (map fc_current_account_nbr [mkFraudCase 101 None])).
  { intros a. cbn. tauto. }
  split; [exact H|].
  exact (@risk_data_depends_on_fraud_account_set sample_enriched _ _ H).
Defined.

Lemma join_inner_unique_total (L R : Type) (lkey : L -> Z) (rkey : R -> Z)
    (left : list L) (right : list R) :
  NoDup (map rkey right) ->
  (forall l, In l left -> In (lkey l) (map rkey right)) ->
  map fst (join_inner lkey rkey left right) = left.
Proof.
  intros Hnd Hall. unfold join_inner.
  induction left as [|l left IH]; [reflexivity|].
  cbn [flat_map]. rewrite map_app, IH by (intros l' Hl'; apply Hall; now right).
  rewrite filter_unique_key by assumption.
  destruct (find (fun r => rkey r =? lkey l) right) as [r|] eqn:Hfind;
    [reflexivity|].
  exfalso. specialize (Hall l (or_introl eq_refl)).
  apply in_map_iff in Hall as (r & Hk & Hr).
  pose proof (find_none _ _ Hfind r Hr) as Hf. cbv beta in Hf.
  apply Z.eqb_neq in Hf. contradiction.
Qed.

(** X16: when the account number is unique in the account table and the
    labels are constructed, the labelled risk table has exactly one row
    per account row, in the order of the account table, each carrying the
    features of that account. *)
Theorem risk_data_one_row_per_account :
  forall (accounts : list account_row) (fraud_cases : list fraud_case)
         (data : list (risk_feature_row * (Z * Z))),
    NoDup (map (fun a : account_row => current_account_nbr (fst a)) accounts) ->
    risk_data accounts fraud_cases = Ok data ->
    map fst data = risk_features accounts /\
    length data = length accounts /\
    forall row, In row data -> fst (snd row) = risk_account (fst row).
Proof.
  intros accounts fraud_cases data Hnd Hdata. unfold risk_data in Hdata.
  destruct (risk_labels accounts fraud_cases) as [risk_label|e] eqn:E;
    [|discriminate].
  cbn [bind] in Hdata. injection Hdata as <-.
  apply risk_labels_index in E as [_ ->].
  assert (Hidx : map (@fst Z Z)
                   (map (fun r => (risk_account r,
                                   if memZ (risk_account r) (collections_accounts accounts)
                                      || memZ (risk_account r) (fraud_accounts fraud_cases)
                                   then 1 else 0))
                        (risk_features accounts))
                 = map risk_account (risk_features accounts)).
  { rewrite map_map. reflexivity. }
  assert (Hrows : map fst (join_inner risk_account (@fst Z Z)
                             (risk_features accounts)
                             (map (fun r => (risk_account r,
                                     if memZ (risk_account r) (collections_accounts accounts)
                                        || memZ (risk_account r) (fraud_accounts fraud_cases)
                                     then 1 else 0))
                                  (risk_features accounts)))
                  = risk_features accounts).
  { apply join_inner_unique_total.
    - rewrite Hidx. unfold risk_features. rewrite map_map. exact Hnd.
    - intros l Hl. rewrite Hidx. now apply in_map. }
  split; [exact Hrows|]. split.
  - rewrite <- (length_map fst), Hrows. unfold risk_features.
    apply length_map.
  - intros [f p] Hrow. apply join_inner_In in Hrow as (_ & _ & Hk). exact Hk.
Qed.

Lemma risk_data_one_row_per_account_witness :
  NoDup (map (fun a : account_row => current_account_nbr (fst a)) sample_enriched) /\
  risk_data sample_enriched sample_fraud_cases = Ok sample_risk_data /\
  length sample_risk_data = length sample_enriched.
Proof.
  assert (H1 : NoDup (map (fun a : account_row => current_account_nbr (fst a))
                          sample_enriched)).
  { vm_compute. repeat constructor; cbn; intuition discriminate. }
  assert (H2 : risk_data sample_enriched sample_fraud_cases = Ok sample_risk_data)
    by (vm_compute; reflexivity).
  split; [exact H1|]. split; [exact H2|].
  exact (proj1 (proj2 (@risk_data_one_row_per_account _ _ _ H1 H2))).
Defined.

(** ** From the snapshot table to the feature table *)

Lemma NoDup_key_inj (A : Type) (key : A -> Z) (l : list A) (x y : A) :
  NoDup (map key l) -> In x l -> In y l -> key x = key y -> x = y.
Proof.
  induction l as [|a l IH]; intros Hnd Hx Hy Hk; [contradiction|].
  cbn [map] in Hnd. inversion Hnd as [|? ? Hnotin Hnd']; subst.
  destruct Hx as [->|Hx], Hy as [->|Hy]; try reflexivity.
  - exfalso. apply Hnotin. rewrite Hk. now apply in_map.
  - exfalso. apply Hnotin. rewrite <- Hk. now apply in_map.
  - now apply IH.
Qed.

Lemma merge_left_missing (L R : Type) (lkey : L -> Z) (rkey : R -> Z)
    (left : list L) (right : list R) (l : L) :
  In (l, None) (merge_left lkey rkey left right) ->
  forall r, In r right -> rkey r <> lkey l.
Proof.
  unfold merge_left. intros Hin r Hr Hk.
  apply in_flat_map in Hin as (l0 & _ & Hin).
  destruct (filter (fun r0 => rkey r0 =? lkey l0) right) as [|r1 ms] eqn:Hf.
  - destruct Hin as [E|[]]. injection E as ->.
    assert (Hr' : In r (filter (fun r0 => rkey r0 =? lkey l) right)).
    { apply filter_In. split; [assumption | now apply Z.eqb_eq]. }
    now rewrite Hf in Hr'.
  - apply in_map_iff in Hin as (r0 & E & _). discriminate E.
Qed.

(** X17: the credit line and bureau score of a feature row are those of
    the retained (latest) snapshot of its account, with zero for a
    missing value, whenever the account is in the account table and has
    a snapshot. *)
Theorem feature_credit_columns_from_latest_snapshot :
  forall (transactions : list transaction_row) (accounts : list account)
         (rams : list rams_row) (f : feature_row) (a : account) (r : rams_row),
    In f (features_df transactions (enrich_accounts accounts rams)) ->
    In a accounts -> current_account_nbr a = feature_account f ->
    In r (rams_latest rams) -> cu_account_nbr r = feature_account f ->
    feature_cu_crd_line f = fillna0 (cu_crd_line r) /\
    feature_cu_crd_bureau_scr f = fillna0 (cu_crd_bureau_scr r).
Proof.
  intros transactions accounts rams f a r Hf Ha Hka Hr Hkr.
  unfold features_df in Hf.
  apply in_map_iff in Hf as ([[may_sep q4] o] & <- & Hx).
  cbn [make_feature_row feature_account feature_cu_crd_line
       feature_cu_crd_bureau_scr] in *.
  assert (Hsnap : forall acc, In acc (enrich_accounts accounts rams) ->
                    current_account_nbr (fst acc) = fst may_sep ->
                    snd acc = Some r).
  { intros acc Hacc Hk. unfold enrich_accounts in Hacc.
    rewrite merge_left_unique in Hacc by apply rams_latest_NoDup.
    apply in_map_iff in Hacc as (a0 & <- & _). cbn [fst snd] in *.
    destruct (find _ (rams_latest rams)) as [r'|] eqn:Hfind.
    - apply find_some in Hfind as [Hr' Hk']. apply Z.eqb_eq in Hk'.
      f_equal. apply (@NoDup_key_inj _ cu_account_nbr (rams_latest rams));
        try assumption; [apply rams_latest_NoDup | congruence].
    - pose proof (find_none _ _ Hfind r Hr) as Hn. cbv beta in Hn.
      apply Z.eqb_neq in Hn. congruence. }
  destruct o as [acc|].
  - apply merge_left_right_rows in Hx as [Hacc Hk]. cbn [fst] in Hk.
    unfold snapshot_column. rewrite (Hsnap acc Hacc Hk). now split.
  - exfalso.
    assert (Henr : In a (map fst (enrich_accounts accounts rams))).
    { unfold enrich_accounts. now apply merge_left_left_rows. }
    apply in_map_iff in Henr as (acc & Hfst & Hacc).
    apply (merge_left_missing _ _ _ _ _ Hx acc Hacc).
    cbn [fst]. now rewrite Hfst.
Qed.

Lemma feature_credit_columns_from_latest_snapshot_witness :
  In (mkFeatureRow 101 (2550 # 100) (40 # 1) 7500 710)
     (features_df sample_merged (enrich_accounts sample_accounts sample_rams)) /\
  In (mkRams 101 (Some (Timestamp 2025 3 24)) (Some 7500%Q) None (Some 710%Q)
             None None None)
     (rams_latest sample_rams) /\
  feature_cu_crd_line (mkFeatureRow 101 (2550 # 100) (40 # 1) 7500 710)
    = fillna0 (Some 7500%Q).
Proof.
  assert (H1 : In (mkFeatureRow 101 (2550 # 100) (40 # 1) 7500 710)
                  (features_df sample_merged
                     (enrich_accounts sample_accounts sample_rams))).
  { fold sample_enriched. rewrite sample_features. now left. }
  assert (H2 : In (mkAccount 101 7 (Some (Timestamp 2020 1 15)) None None)
                  sample_accounts) by (now left).
  assert (H3 : In (mkRams 101 (Some (Timestamp 2025 3 24)) (Some 7500%Q) None
                          (Some 710%Q) None None None)
                  (rams_latest sample_rams)) by (vm_compute; now left).
  split; [exact H1|]. split; [exact H3|].
  exact (proj1 (@feature_credit_columns_from_latest_snapshot
                  _ _ _ _ _ _ H1 H2 eq_refl H3 eq_refl)).
Defined.
